(** * VeriAssets front end: Dutch-auction page and Qubic SDK

  A shallow embedding of the auction logic that exists in the front
  end:

  - [Double]         : the rounding of JavaScript number arithmetic;
  - [Api]            : the [IPOListing] record of [lib/api.ts];
  - [IPODetailPage]  : the state of the IPO detail page, its price
                       countdown, [handleBid] and [bidMutation];
  - [QubicSDK]       : [sendTransaction], [callContract], [placeBid],
                       [formatBalance] and [parseAmount] of
                       [lib/qubic-sdk.ts].

  A finite JavaScript number is the rational it denotes ([Q]); the
  result of every [+], [-], [*] and [/] on numbers is rounded to the
  nearest binary64 value by [Double.roundDouble], as IEEE 754
  prescribes.  [NaN] results of [parseFloat]/[parseInt] are [None];
  infinities are not represented: where a property depends on the
  value of an arithmetic result, it assumes that the result is
  [Double.finite].  A [bigint] is a [Z].
  Timestamps are the millisecond values that [new Date(s).getTime()]
  yields for the ISO strings of the source. *)

From Stdlib Require Import NArith ZArith QArith Qminmax Qround Qabs Qpower.
From Stdlib Require Import Lqa Lia.
From Stdlib Require Import List String Ascii Bool.
Import ListNotations.

Local Open Scope Q_scope.

(** ** JavaScript helpers on finite numbers *)

(** [a || b] on numbers: [0] is the only falsy finite number. *)
Definition jsOr (a b : Q) : Q := if Qeq_bool a 0 then b else a.

(** [a < b] on finite numbers. *)
Definition Qltb (a b : Q) : bool := negb (Qle_bool b a).

(** The names that every plain object inherits from [Object.prototype];
    [obj[name]] finds them when [obj] has no member of that name of its
    own, and each of them is truthy. *)
Definition objectPrototypeMembers : list string :=
  ["constructor"; "__defineGetter__"; "__defineSetter__"; "hasOwnProperty";
   "__lookupGetter__"; "__lookupSetter__"; "isPrototypeOf";
   "propertyIsEnumerable"; "toString"; "valueOf"; "__proto__";
   "toLocaleString"]%string.

Definition inheritedMember (key : string) : bool :=
  existsb (String.eqb key) objectPrototypeMembers.

(** ** Number arithmetic: IEEE 754 binary64, round to nearest, ties to
    even *)

Module Double.

(** [2 ^ e] for any integer [e]. *)
Definition pow2 (e : Z) : Q := 2 ^ e.

(** For [0 < x], the exponent [L] with [2 ^ L <= x < 2 ^ (L + 1)]. *)
Definition ilog2 (x : Q) : Z :=
  let k := (Z.log2 (Qnum x) - Z.log2 (Zpos (Qden x)))%Z in
  if Qle_bool (pow2 k) x then k else (k - 1)%Z.

(** The integer nearest to [q]; a tie goes to the even one. *)
Definition roundHalfEven (q : Q) : Z :=
  let f := Qfloor q in
  match Qcompare (q - inject_Z f) (1 # 2) with
  | Lt => f
  | Gt => (f + 1)%Z
  | Eq => if Z.even f then f else (f + 1)%Z
  end.

(** The exponent of the unit in the last place of [x]: 53 significant
    bits, and [2 ^ (-1074)] for the subnormal numbers. *)
Definition ulpExponent (x : Q) : Z := Z.max (ilog2 (Qabs x) - 52) (-1074).

(** The binary64 value nearest to [x]. *)
Definition roundDouble (x : Q) : Q :=
  let e := ulpExponent x in inject_Z (roundHalfEven (x / pow2 e)) * pow2 e.

(** [x] is a binary64 value. *)
Definition isDouble (x : Q) : Prop := roundDouble x == x.

(** The largest binary64 value, [(2^53 - 1) * 2^971].  An arithmetic
    result [x] is finite when its rounding does not exceed it in
    magnitude; otherwise IEEE 754 gives an infinity, which the model
    does not have. *)
Definition maxValue : Q := inject_Z (2 ^ 53 - 1) * pow2 971.

Definition finite (x : Q) : Prop := Qabs (roundDouble x) <= maxValue.

(** The operators of JavaScript on numbers. *)
Definition add (a b : Q) : Q := roundDouble (a + b).
Definition sub (a b : Q) : Q := roundDouble (a - b).
Definition mul (a b : Q) : Q := roundDouble (a * b).
Definition div (a b : Q) : Q := roundDouble (a / b).


End Double.

(** ** lib/api.ts *)

Module Api.

Inductive IPOStatus : Type :=
| active | upcoming | ended | pending | completed | cancelled.

Definition IPOStatus_eqb (a b : IPOStatus) : bool :=
  match a, b with
  | active, active | upcoming, upcoming | ended, ended
  | pending, pending | completed, completed | cancelled, cancelled => true
  | _, _ => false
  end.

(** [interface IPOListing]: the fields that the detail page computes
    with, and in [others] every other member of the object
    ([description], [assetType], [startPrice], [verificationScore],
    [contractId], ...) as one value. *)
Record IPOListing : Type := mkIPO {
  id : string;
  name : string;
  symbol : string;
  totalTokens : Z;
  availableTokens : Z;
  currentPrice : Q;
  minPrice : Q;
  maxPrice : Q;
  startTime : Z;
  endTime : Z;
  status : IPOStatus;
  totalRaised : Q;
  participants : Z;
  others : string
}.

(** Deep equality of two listing objects: [===] on every member. *)
Definition IPOListing_eqb (a b : IPOListing) : bool :=
  String.eqb (id a) (id b)
  && String.eqb (name a) (name b)
  && String.eqb (symbol a) (symbol b)
  && Z.eqb (totalTokens a) (totalTokens b)
  && Z.eqb (availableTokens a) (availableTokens b)
  && Qeq_bool (currentPrice a) (currentPrice b)
  && Qeq_bool (minPrice a) (minPrice b)
  && Qeq_bool (maxPrice a) (maxPrice b)
  && Z.eqb (startTime a) (startTime b)
  && Z.eqb (endTime a) (endTime b)
  && IPOStatus_eqb (status a) (status b)
  && Qeq_bool (totalRaised a) (totalRaised b)
  && Z.eqb (participants a) (participants b)
  && String.eqb (others a) (others b).

End Api.

(** ** app/history/page.tsx : IPODetailPage *)

Module IPODetailPage.
Import Api.

(** [const mockIPOs: Record<string, any>] *)
Definition mockIPO1 : IPOListing :=
  mkIPO "1" "Manhattan Luxury Tower" "MLT" 100000 75000
        120 80 150 1735689600000 1738368000000 active 1500000 234
        "real_estate QUBIC123456789ABCDEF".
Definition mockIPO2 : IPOListing :=
  mkIPO "2" "Carbon Credit Reserve" "CCR" 50000 45000
        38 25 50 1736899200000 1739577600000 active 190000 89
        "commodity QUBICCARBON123456789".
Definition mockIPO3 : IPOListing :=
  mkIPO "3" "Art Collection Fund" "ACF" 10000 10000
        500 200 500 1740787200000 1743465600000 pending 0 0
        "collectible null".

(** The value of the query: a listing object, or a member that
    [mockIPOs] inherits from [Object.prototype] (a function, or the
    prototype itself), which has none of the listing's fields. *)
Inductive IPOData : Type :=
| Listing (l : IPOListing)
| Inherited (member : string).

(** [mockIPOs[key]]: one of the three listings, an inherited member, or
    [undefined] ([None]). *)
Definition mockIPOs (key : string) : option IPOData :=
  if String.eqb key "1" then Some (Listing mockIPO1)
  else if String.eqb key "2" then Some (Listing mockIPO2)
  else if String.eqb key "3" then Some (Listing mockIPO3)
  else if inheritedMember key then Some (Inherited key)
  else None.

(** [queryFn]: the listing returned by the API, or, when the request
    fails ([None]), [mockIPOs[ipoId] || mockIPOs['1']]. *)
Definition queryFn (apiResult : option IPOListing) (ipoId : string)
  : IPOData :=
  match apiResult with
  | Some r => Listing r
  | None => match mockIPOs ipoId with
            | Some m => m
            | None => Listing mockIPO1
            end
  end.

Definition IPOData_eqb (a b : IPOData) : bool :=
  match a, b with
  | Listing x, Listing y => IPOListing_eqb x y
  | Inherited j, Inherited k => String.eqb j k
  | _, _ => false
  end.

(** [useQuery] hands out the object it handed out before when the new
    result is deeply equal to it (structural sharing); [old] is [None]
    before the first result. *)
Definition sameData (old : option IPOData) (new : IPOData) : bool :=
  match old with
  | Some d => IPOData_eqb d new
  | None => false
  end.

(** *** Price countdown *)

(** [ipo.currentPrice || ipo.maxPrice], the value of the first
    [setCurrentPrice] once the listing is loaded. *)
Definition initialPrice (ipo : IPOListing) : Q :=
  jsOr (currentPrice ipo) (maxPrice ipo).

(** [24 * 60 * 6]: the number of ten-second intervals in a day. *)
Definition TICKS_PER_DAY : Q := 24 * 60 * 6.

(** [const decrease = (ipo.maxPrice - ipo.minPrice) / (24 * 60 * 6)] *)
Definition decrease (ipo : IPOListing) : Q :=
  Double.div (Double.sub (maxPrice ipo) (minPrice ipo)) TICKS_PER_DAY.

(** The updater handed to [setCurrentPrice] by the interval:
    [Math.max(ipo.minPrice, prev - decrease)]. *)
Definition priceTick (ipo : IPOListing) (prev : Q) : Q :=
  Qmax (minPrice ipo) (Double.sub prev (decrease ipo)).

(** The interval is installed only when [ipo.status === 'active']. *)
Definition tickIfActive (ipo : IPOListing) (prev : Q) : Q :=
  if IPOStatus_eqb (status ipo) active then priceTick ipo prev else prev.

(** The price in the page state after [n] firings of the interval that
    the second effect installed when the page received the listing
    object [ipo]. *)
Definition priceAfter (ipo : IPOListing) (n : nat) : Q :=
  Nat.iter n (tickIfActive ipo) (initialPrice ipo).

(** [setInterval(..., 10000)]: firings between the moment the effect
    was installed ([loaded], in ms) and [now]. *)
Definition PRICE_INTERVAL_MS : Z := 10000.

Definition elapsedTicks (loaded now : Z) : nat :=
  Z.to_nat ((now - loaded) / PRICE_INTERVAL_MS).

(** The price that the page shows at time [now] when [loaded] is the
    time at which it last received a changed listing object, [ipo]: both
    effects ran then, and no later refetch has replaced the object. *)
Definition priceAt (ipo : IPOListing) (loaded now : Z) : Q :=
  priceAfter ipo (elapsedTicks loaded now).








(** *** Page state *)

Inductive ToastVariant : Type := default | destructive.

(** A [toast({ title, description, variant })] call; the description is
    display text and is not modelled. *)
Record Toast : Type := mkToast {
  title : string;
  variant : ToastVariant
}.

(** The argument of [bidMutation.mutate]. *)
Record BidData : Type := mkBid {
  price : Q;
  quantity : Z
}.

(** The hooks of [IPODetailPage]: [useQuery] data, the [useState]
    cells ([None] in [currentPrice] is [undefined]), the wallet flag of
    [useUserStore], the wallet modal, the toasts shown so far and the
    calls made to [bidMutation.mutate]. *)
Record PageState : Type := mkPage {
  ipoId : string;
  data : option IPOData;
  currentPrice : option Q;
  bidAmount : string;
  tokenQuantity : string;
  isWalletConnected : bool;
  walletModalOpen : bool;
  bidPending : bool;
  toasts : list Toast;
  mutations : list BidData
}.

(** [ipo], where the code reads a field of the listing: an inherited
    member has none of them, so that [ipo.status], [ipo.minPrice] and
    the like are [undefined] as they are before the data arrives. *)
Definition ipo (st : PageState) : option IPOListing :=
  match data st with
  | Some (Listing l) => Some l
  | _ => None
  end.

(** State on first render: [useState(0)], [useState('')],
    [useState('1')]. *)
Definition initialPage (pid : string) (connected : bool) : PageState :=
  mkPage pid None (Some 0) "" "1" connected false false [] [].

Definition setData (st : PageState) (d : option IPOData) : PageState :=
  mkPage (ipoId st) d (currentPrice st) (bidAmount st) (tokenQuantity st)
         (isWalletConnected st) (walletModalOpen st) (bidPending st)
         (toasts st) (mutations st).

Definition setCurrentPrice (st : PageState) (p : option Q) : PageState :=
  mkPage (ipoId st) (data st) p (bidAmount st) (tokenQuantity st)
         (isWalletConnected st) (walletModalOpen st) (bidPending st)
         (toasts st) (mutations st).

Definition setBidAmount (st : PageState) (s : string) : PageState :=
  mkPage (ipoId st) (data st) (currentPrice st) s (tokenQuantity st)
         (isWalletConnected st) (walletModalOpen st) (bidPending st)
         (toasts st) (mutations st).

Definition setTokenQuantity (st : PageState) (s : string) : PageState :=
  mkPage (ipoId st) (data st) (currentPrice st) (bidAmount st) s
         (isWalletConnected st) (walletModalOpen st) (bidPending st)
         (toasts st) (mutations st).

Definition setWalletConnected (st : PageState) (c : bool) : PageState :=
  mkPage (ipoId st) (data st) (currentPrice st) (bidAmount st)
         (tokenQuantity st) c (walletModalOpen st) (bidPending st)
         (toasts st) (mutations st).

Definition openWalletModal (st : PageState) : PageState :=
  mkPage (ipoId st) (data st) (currentPrice st) (bidAmount st)
         (tokenQuantity st) (isWalletConnected st) true (bidPending st)
         (toasts st) (mutations st).

Definition toast (st : PageState) (t : Toast) : PageState :=
  mkPage (ipoId st) (data st) (currentPrice st) (bidAmount st)
         (tokenQuantity st) (isWalletConnected st) (walletModalOpen st)
         (bidPending st) (toasts st ++ [t]) (mutations st).

Definition mutate (st : PageState) (d : BidData) : PageState :=
  mkPage (ipoId st) (data st) (currentPrice st) (bidAmount st)
         (tokenQuantity st) (isWalletConnected st) (walletModalOpen st)
         true (toasts st) (mutations st ++ [d]).

Definition settle (st : PageState) : PageState :=
  mkPage (ipoId st) (data st) (currentPrice st) (bidAmount st)
         (tokenQuantity st) (isWalletConnected st) (walletModalOpen st)
         false (toasts st) (mutations st).

Definition toastInvalidBid : Toast := mkToast "Invalid Bid" destructive.
Definition toastInvalidQuantity : Toast :=
  mkToast "Invalid Quantity" destructive.
Definition toastBidPlaced : Toast :=
  mkToast "Bid Placed Successfully!" default.

(** What a call of [handleBid] does. *)
Inductive BidOutcome : Type :=
| WalletModalOpened
| InvalidBid
| InvalidQuantity
| Submitted (d : BidData).

Section Host.

(** [parseFloat], [parseInt] and [String] are functions of the host;
    [None] stands for [NaN]. *)
Variable parseFloat : string -> option Q.
Variable parseInt : string -> option Z.
Variable numberToString : Q -> string.

(** [ipo?.minPrice || 0] *)
Definition minBidPrice (i : option IPOListing) : Q :=
  match i with
  | Some l => jsOr (minPrice l) 0
  | None => 0
  end.

(** [handleBid]: the wallet gate, then
    [isNaN(price) || price < (ipo?.minPrice || 0)], then
    [isNaN(quantity) || quantity < 1], then [bidMutation.mutate]. *)
Definition handleBid (st : PageState) : BidOutcome :=
  if negb (isWalletConnected st) then WalletModalOpened
  else
    match parseFloat (bidAmount st) with
    | None => InvalidBid
    | Some p =>
        if Qltb p (minBidPrice (ipo st)) then InvalidBid
        else
          match parseInt (tokenQuantity st) with
          | None => InvalidQuantity
          | Some q =>
              if (q <? 1)%Z then InvalidQuantity
              else Submitted (mkBid p q)
          end
    end.

(** The effect of [handleBid] on the page. *)
Definition runHandleBid (st : PageState) : PageState :=
  match handleBid st with
  | WalletModalOpened => openWalletModal st
  | InvalidBid => toast st toastInvalidBid
  | InvalidQuantity => toast st toastInvalidQuantity
  | Submitted d => mutate st d
  end.

(** [disabled={!isWalletConnected || ipo.status !== 'active'
    || bidMutation.isPending}] on the bid button; there is no button
    before the data has arrived. *)
Definition bidButtonDisabled (st : PageState) : bool :=
  negb (isWalletConnected st)
  || match ipo st with
     | Some l => negb (IPOStatus_eqb (status l) active)
     | None => true
     end
  || bidPending st.

(** [bidMutation]: [mutationFn] waits and resolves to
    [{ success: true, bidId }]; [onSuccess] shows the toast and
    invalidates the query (the refetch arrives as a later
    [QueryData]). *)
Definition bidMutationSettled (st : PageState) : PageState :=
  if bidPending st then toast (settle st) toastBidPlaced else st.

(** [ipo.currentPrice || ipo.maxPrice] and its [String(...)], on what
    the query returned. *)
Definition loadedPrice (d : IPOData) : option Q :=
  match d with
  | Listing l => Some (initialPrice l)
  | Inherited _ => None
  end.

Definition loadedBidAmount (d : IPOData) : string :=
  match d with
  | Listing l => numberToString (initialPrice l)
  | Inherited _ => "undefined"
  end.

(** A result of the query arrives ([enabled: !!ipoId]).  The first
    [useEffect] has [[ipo]] as its dependencies: it runs when the data
    object is a new one, and then does
    [setCurrentPrice(ipo.currentPrice || ipo.maxPrice)] and
    [setBidAmount(String(ipo.currentPrice || ipo.maxPrice))]. *)
Definition onQueryData (st : PageState) (apiResult : option IPOListing)
  : PageState :=
  if String.eqb (ipoId st) "" then st
  else
    let d := queryFn apiResult (ipoId st) in
    if sameData (data st) d then st
    else setBidAmount (setCurrentPrice (setData st (Some d)) (loadedPrice d))
                      (loadedBidAmount d).

(** The second [useEffect]: one firing of the price interval, which is
    installed for a listing whose status is ['active']. *)
Definition onPriceInterval (st : PageState) : PageState :=
  match data st, currentPrice st with
  | Some (Listing l), Some p => setCurrentPrice st (Some (tickIfActive l p))
  | _, _ => st
  end.

(** What happens to the page: a query result, a firing of the price
    interval, an edit of one of the two inputs, a click on the bid
    button, the end of a mutation, and a change of [isWalletConnected]
    in the user store (the header connects and disconnects the wallet
    while the page is open). *)
Inductive Event : Type :=
| QueryData (apiResult : option IPOListing)
| PriceInterval
| ChangeBidAmount (s : string)
| ChangeTokenQuantity (s : string)
| ClickPlaceBid
| MutationSettled
| WalletChanged (connected : bool).

Definition step (st : PageState) (e : Event) : PageState :=
  match e with
  | QueryData r => onQueryData st r
  | PriceInterval => onPriceInterval st
  | ChangeBidAmount s => setBidAmount st s
  | ChangeTokenQuantity s => setTokenQuantity st s
  | ClickPlaceBid => if bidButtonDisabled st then st else runHandleBid st
  | MutationSettled => bidMutationSettled st
  | WalletChanged c => setWalletConnected st c
  end.

Definition run (st : PageState) (evs : list Event) : PageState :=
  fold_left step evs st.

End Host.

(** Observations on a sequence of page events. *)
Definition isPriceInterval (e : Event) : bool :=
  match e with PriceInterval => true | _ => false end.

Definition isQueryData (e : Event) : bool :=
  match e with QueryData _ => true | _ => false end.

(** Number of firings of the price interval in [evs]. *)
Definition firings (evs : list Event) : nat :=
  List.length (filter isPriceInterval evs).

(** Every query result of [evs] is deeply equal to the data [d] that
    the page with route id [pid] holds, so that the data object stays the
    same one throughout [evs]. *)
Definition dataUnchanged (pid : string) (d : IPOData) (evs : list Event)
  : bool :=
  forallb (fun e => match e with
                    | QueryData r => IPOData_eqb d (queryFn r pid)
                    | _ => true
                    end) evs.

(** Every query of [evs] failed, so that [queryFn] fell back to the
    mock data. *)
Definition apiUnavailable (evs : list Event) : bool :=
  forallb (fun e => match e with QueryData (Some _) => false | _ => true end)
          evs.

End IPODetailPage.
(** ** Strings and bigints of the host *)

Module Js.

Local Open Scope Z_scope.

(** A JavaScript string, as its list of characters. *)
Definition chars (s : string) : list ascii := list_ascii_of_string s.
Definition str (l : list ascii) : string := string_of_list_ascii l.

Definition digitChar (d : N) : ascii := ascii_of_N (48 + d).

Definition digitVal (c : ascii) : option N :=
  let n := N_of_ascii c in
  if ((48 <=? n) && (n <=? 57))%N then Some (n - 48)%N else None.

(** Decimal digits of [n], least significant first; [fuel] bounds the
    number of digits. *)
Fixpoint digitsLE (fuel : nat) (n : N) : list N :=
  match fuel with
  | O => []
  | S f => if (n =? 0)%N then [] else (n mod 10)%N :: digitsLE f (n / 10)%N
  end.

Definition digitsOf (n : N) : list N :=
  digitsLE (S (N.to_nat (N.log2 n))) n.

(** The number denoted by a list of digits, least significant first. *)
Fixpoint valueLE (l : list N) : N :=
  match l with
  | [] => 0%N
  | d :: r => (d + 10 * valueLE r)%N
  end.

(** A decimal digit character. *)
Definition isDigit (c : ascii) : Prop :=
  exists d : N, (d < 10)%N /\ c = digitChar d.

(** The decimal numeral of a natural number, most significant digit
    first; ["0"] for zero. *)
Definition numeral (n : N) : list ascii :=
  if (n =? 0)%N then ["0"%char] else rev (map digitChar (digitsOf n)).

(** [BigInt.prototype.toString()] *)
Definition toString (z : Z) : list ascii :=
  if z <? 0 then "-"%char :: numeral (Z.abs_N z) else numeral (Z.abs_N z).

(** Grouping of a digit list given least significant digit first: the
    separator [sep] before every fourth, seventh, ... digit. [k] counts
    the digits already placed in the current group. *)
Fixpoint groupLE (sep : ascii) (k : nat) (l : list ascii) : list ascii :=
  match l with
  | [] => []
  | c :: r =>
      match k with
      | 3%nat => sep :: c :: groupLE sep 1 r
      | _ => c :: groupLE sep (S k) r
      end
  end.

(** [BigInt.prototype.toLocaleString()] takes the locale of the runtime;
    the code passes none.  Two of the functions it can be: digits in
    groups of three separated by commas ([en-US]) and by dots
    ([de-DE]). *)
Definition grouped (sep : ascii) (z : Z) : list ascii :=
  let g := rev (groupLE sep 0 (rev (numeral (Z.abs_N z)))) in
  if z <? 0 then "-"%char :: g else g.

Definition toLocaleString_enUS : Z -> list ascii := grouped ",".
Definition toLocaleString_deDE : Z -> list ascii := grouped ".".

Fixpoint parseDigits (acc : N) (l : list ascii) : option N :=
  match l with
  | [] => Some acc
  | c :: r =>
      match digitVal c with
      | Some d => parseDigits (10 * acc + d)%N r
      | None => None
      end
  end.

(** [BigInt(s)] on a string: the empty string is [0n], an optional sign
    is followed by decimal digits, anything else is a [SyntaxError]
    ([None]).  Surrounding white space and the [0x], [0o], [0b] forms
    are not modelled. *)
Definition BigInt (l : list ascii) : option Z :=
  match l with
  | [] => Some 0
  | c :: r =>
      if Ascii.eqb c "-" then
        match r with
        | [] => None
        | _ => option_map (fun n => - Z.of_N n) (parseDigits 0 r)
        end
      else if Ascii.eqb c "+" then
        match r with
        | [] => None
        | _ => option_map Z.of_N (parseDigits 0 r)
        end
      else option_map Z.of_N (parseDigits 0 l)
  end.

(** [s.padStart(n, c)] and [s.padEnd(n, c)] with a one-character pad. *)
Definition padStart (n : nat) (c : ascii) (l : list ascii) : list ascii :=
  repeat c (n - List.length l) ++ l.

Definition padEnd (n : nat) (c : ascii) (l : list ascii) : list ascii :=
  l ++ repeat c (n - List.length l).

(** [s.replace(/,/g, '')] *)
Definition removeCommas (l : list ascii) : list ascii :=
  filter (fun c => negb (Ascii.eqb c ",")) l.


(** [s.split(sep)] with a one-character separator. *)
Fixpoint split (sep : ascii) (l : list ascii) : list (list ascii) :=
  match l with
  | [] => [[]]
  | c :: r =>
      if Ascii.eqb c sep then [] :: split sep r
      else
        match split sep r with
        | h :: t => (c :: h) :: t
        | [] => [[c]]
        end
  end.

End Js.

(** ** lib/qubic-sdk.ts *)

Module QubicSDK.

Local Open Scope Z_scope.

Record QubicWallet : Type := mkWallet {
  address : string;
  publicKey : string;
  balance : Z;
  connected : bool
}.

Inductive TxStatus : Type := pending | confirmed | failed.

Record QubicTransaction : Type := mkTx {
  hash : string;
  from : string;
  to : string;
  amount : Z;
  tick : Z;
  status : TxStatus;
  timestamp : Z
}.

Record SmartContractCall : Type := mkCall {
  contractAddress : string;
  method : string;
  params : list string;
  value : option Z
}.

(** The JSON body that [callContract] posts. *)
Record Payload : Type := mkPayload {
  contract : string;
  payloadMethod : string;
  payloadParams : list string;
  payloadValue : string;
  sender : string
}.

(** Calls of [this.emit(event, data)] that carry a transaction. *)
Inductive Emitted : Type :=
| transactionSent (tx : QubicTransaction)
| transactionConfirmed (tx : QubicTransaction).

(** The instance: its wallet, what it has emitted and what it has
    posted to the RPC endpoint. *)
Record SDKState : Type := mkSDK {
  wallet : option QubicWallet;
  emitted : list Emitted;
  posted : list Payload
}.

(** What the surroundings supply during one call: the random
    transaction hash, the tick read from the network, the clock, and
    the outcome of the [fetch] in [callContract] (the response body, or
    the error with which the request fails). *)
Record Host : Type := mkHost {
  generateTxHash : string;
  getCurrentTick : Z;
  dateNow : Z;
  fetchContractCall : Payload -> string + string
}.

(** Result of an [async] method: a value or a thrown error. *)
Inductive Result (A : Type) : Type :=
| Ok (a : A)
| Throw (msg : string).
Arguments Ok {A} a.
Arguments Throw {A} msg.

Definition SDK (A : Type) : Type := SDKState -> Result A * SDKState.

Definition ret {A} (a : A) : SDK A := fun st => (Ok a, st).

Definition throw {A} (msg : string) : SDK A := fun st => (Throw msg, st).

Definition bind {A B} (m : SDK A) (k : A -> SDK B) : SDK B :=
  fun st =>
    match m st with
    | (Ok a, st') => k a st'
    | (Throw msg, st') => (Throw msg, st')
    end.

Notation "x <- m ;; k" := (bind m (fun x => k))
  (at level 61, m at next level, right associativity).

(** [if (!this.wallet) throw new Error('Wallet not connected')] *)
Definition requireWallet : SDK QubicWallet :=
  fun st =>
    match wallet st with
    | Some w => (Ok w, st)
    | None => (Throw "Wallet not connected", st)
    end.

Definition emit (e : Emitted) : SDK unit :=
  fun st => (Ok tt, mkSDK (wallet st) (emitted st ++ [e]) (posted st)).

Definition post (h : Host) (p : Payload) : SDK string :=
  fun st =>
    let st' := mkSDK (wallet st) (emitted st) (posted st ++ [p]) in
    match fetchContractCall h p with
    | inl body => (Ok body, st')
    | inr err => (Throw err, st')
    end.

(** [sendTransaction(to, amount)] *)
Definition sendTransaction (h : Host) (to_ : string) (amount_ : Z)
  : SDK QubicTransaction :=
  w <- requireWallet ;;
  let tx := mkTx (generateTxHash h) (address w) to_ amount_
                 (getCurrentTick h) pending (dateNow h) in
  _ <- emit (transactionSent tx) ;;
  ret tx.

(** The [setTimeout] callback of [sendTransaction], two seconds later:
    [tx.status = 'confirmed'] and [emit('transactionConfirmed', tx)]. *)
Definition confirmTransaction (tx : QubicTransaction) : SDK unit :=
  emit (transactionConfirmed
          (mkTx (hash tx) (from tx) (to tx) (amount tx) (tick tx)
                confirmed (timestamp tx))).

(** [call.value?.toString() || '0'] *)
Definition valueString (v : option Z) : string :=
  match v with
  | Some z => Js.str (Js.toString z)
  | None => "0"
  end.

(** [callContract(call)] *)
Definition callContract (h : Host) (call : SmartContractCall) : SDK string :=
  w <- requireWallet ;;
  post h (mkPayload (contractAddress call) (method call) (params call)
                    (valueString (value call)) (address w)).

Definition DUTCH_AUCTION_CONTRACT_ADDRESS : string :=
  "DUTCH_AUCTION_CONTRACT_ADDRESS".

(** [placeBid(auctionId, amount, maxPrice)] *)
Definition placeBid (h : Host) (auctionId : string) (amount_ maxPrice : Z)
  : SDK QubicTransaction :=
  _ <- requireWallet ;;
  tx <- sendTransaction h DUTCH_AUCTION_CONTRACT_ADDRESS
                        (maxPrice * amount_) ;;
  _ <- callContract h
         (mkCall DUTCH_AUCTION_CONTRACT_ADDRESS "placeBid"
                 [auctionId; Js.str (Js.toString amount_);
                  Js.str (Js.toString maxPrice)]
                 None) ;;
  ret tx.

(** *** Format utilities *)

Section Format.

(** [amount.toLocaleString()] under the default locale of the runtime,
    and [BigInt(10 ** decimals)], the bigint of the double power. *)
Variable toLocaleString : Z -> list ascii.
Variable BigInt_pow10 : nat -> Z.

(** [formatBalance(amount, decimals)]; [None] is the [RangeError] of a
    division by [0n]. *)
Definition formatBalance (amount_ : Z) (decimals : nat) : option string :=
  if Nat.eqb decimals 0 then Some (Js.str (toLocaleString amount_))
  else
    let divisor := BigInt_pow10 decimals in
    if divisor =? 0 then None
    else
      let whole := Z.quot amount_ divisor in
      let fraction := Z.rem amount_ divisor in
      Some (Js.str (toLocaleString whole ++ "."%char
                    :: Js.padStart decimals "0" (Js.toString fraction))).

(** [parts[1] ? e : BigInt(0)]: the empty string and a missing element
    are falsy. *)
Definition truthy (p : option (list ascii)) : option (list ascii) :=
  match p with
  | Some [] => None
  | other => other
  end.

(** [parseAmount(amount, decimals)]; [None] is the [SyntaxError] of
    [BigInt]. *)
Definition parseAmount (amount_ : string) (decimals : nat) : option Z :=
  if Nat.eqb decimals 0 then Js.BigInt (Js.removeCommas (Js.chars amount_))
  else
    let parts := Js.split "." (Js.chars amount_) in
    match Js.BigInt (Js.removeCommas (nth 0 parts [])) with
    | None => None
    | Some whole =>
        match
          match truthy (nth_error parts 1) with
          | Some p => Js.BigInt (Js.padEnd decimals "0" p)
          | None => Some 0
          end
        with
        | None => None
        | Some fraction => Some (whole * BigInt_pow10 decimals + fraction)
        end
    end.

End Format.

(** [10 ** d] is the exact power when [d <= 22]. *)
Definition exactPow10 (d : nat) : Z := 10 ^ Z.of_nat d.

End QubicSDK.

(** ** Concrete listings and host stand-ins used in examples *)

Module Scenario.
Import Api IPODetailPage.

(** The auction of the specification's scenarios: prices 150 and 75,
    [startTime = 0], [endTime = 1000 s], supply 100; the listing carries
    the start price as its current price. *)
Definition specAuction : IPOListing :=
  mkIPO "spec" "Scenario" "SCN" 100 100 150 75 150 0 1000000 active 0 0 "".

(** The same auction with [startTime == endTime]. *)
Definition degenerateAuction : IPOListing :=
  mkIPO "spec" "Scenario" "SCN" 100 100 150 75 150 0 0 active 0 0 "".

(** The scenario auction as listings whose [currentPrice] lies outside
    the two bounds: 50 below the reserve of 75, and 200 above the start
    price of 150. *)
Definition lowListing : IPOListing :=
  mkIPO "spec" "Scenario" "SCN" 100 100 50 75 150 0 1000000 active 0 0 "".


(** The first mock listing as the API returns it once its
    [currentPrice] has been raised to 130. *)
Definition raisedListing : IPOListing :=
  mkIPO "1" "Manhattan Luxury Tower" "MLT" 100000 75000
        130 80 150 1735689600000 1738368000000 active 1500000 234
        "real_estate QUBIC123456789ABCDEF".


(** [parseInt] and [parseFloat] agree with this reader on unsigned
    decimal numerals without a fraction, the only strings it is applied
    to below; it answers [NaN] on anything else. *)
Definition readNumeral (s : string) : option N :=
  match Js.chars s with
  | [] => None
  | cs => Js.parseDigits 0 cs
  end.

Definition parseIntNumeral (s : string) : option Z :=
  option_map Z.of_N (readNumeral s).

Definition parseFloatNumeral (s : string) : option Q :=
  option_map (fun n => inject_Z (Z.of_N n)) (readNumeral s).

(** [String(x)] for an integer-valued [x]. *)
Definition integerToString (x : Q) : string :=
  Js.str (Js.toString (Qfloor x)).

(** A page that has loaded [l] with a connected wallet and the given
    input fields. *)
Definition pageWith (l : IPOListing) (bid qty : string) : PageState :=
  mkPage (id l) (Some (Listing l)) (Some (initialPrice l)) bid qty
         true false false [] [].

(** The demo wallet of [connect()] and one set of answers of the
    surroundings. *)
Definition demoWallet : QubicSDK.QubicWallet :=
  QubicSDK.mkWallet "DEMO" "0x00" 1000000000 true.

Definition demoHost : QubicSDK.Host :=
  QubicSDK.mkHost "ab12" 7 1000 (fun _ => inl "{}"%string).

Definition demoSDK : QubicSDK.SDKState :=
  QubicSDK.mkSDK (Some demoWallet) [] [].

End Scenario.

(** ** Further code of the cited files *)

(** *** String helpers of the host *)

Module JsString.

Local Open Scope Z_scope.

(** [s.slice(start, end)]: a negative index counts from the end of the
    string, every index is clamped to [0 .. length], and a missing
    [end] is the length. *)
Definition sliceIndex (len i : Z) : Z :=
  if i <? 0 then Z.max (len + i) 0 else Z.min i len.

Definition slice (start : Z) (end_ : option Z) (l : list ascii)
  : list ascii :=
  let len := Z.of_nat (List.length l) in
  let from := sliceIndex len start in
  let to_ := match end_ with
             | Some e => sliceIndex len e
             | None => len
             end in
  firstn (Z.to_nat (to_ - from)) (skipn (Z.to_nat from) l).

(** The value of a string of decimal digits ([0] when it is not one). *)
Definition numValue (l : list ascii) : N :=
  match Js.parseDigits 0 l with
  | Some n => n
  | None => 0%N
  end.

End JsString.

(** *** lib/qubic-sdk.ts, continued *)

Module QubicSDKOps.
Import QubicSDK.

Local Open Scope Z_scope.

Definition RWA_TRADING_CONTRACT_ADDRESS : string :=
  "RWA_TRADING_CONTRACT_ADDRESS".

(** [tradeRWAToken({ tokenId, amount, price, isBuy })] *)
Definition tradeRWAToken (h : Host) (tokenId : string)
           (amount_ price : Z) (isBuy : bool) : SDK QubicTransaction :=
  let method_ := if isBuy then "buyToken"%string else "sellToken"%string in
  bind (sendTransaction h RWA_TRADING_CONTRACT_ADDRESS
                        (if isBuy then price * amount_ else 0))
       (fun tx =>
          bind (callContract h
                  (mkCall RWA_TRADING_CONTRACT_ADDRESS method_
                          [tokenId; Js.str (Js.toString amount_);
                           Js.str (Js.toString price)]
                          None))
               (fun _ => ret tx)).

(** [isConnected()]: [this.wallet?.connected ?? false] *)
Definition isConnected (st : SDKState) : bool :=
  match wallet st with
  | Some w => connected w
  | None => false
  end.

(** [disconnect()]: [this.wallet = null] when a wallet is set.  The
    [disconnected] event carries no transaction and is not part of
    [emitted]. *)
Definition disconnect : SDK unit :=
  fun st =>
    match wallet st with
    | Some _ => (Ok tt, mkSDK None (emitted st) (posted st))
    | None => (Ok tt, st)
    end.

(** [shortenAddress(address, chars)]:
    [`${address.slice(0, chars)}...${address.slice(-chars)}`] *)
Definition shortenAddress (address_ : string) (chars : Z) : string :=
  Js.str (JsString.slice 0 (Some chars) (Js.chars address_)
          ++ Js.chars "..."
          ++ JsString.slice (- chars) None (Js.chars address_)).

(** **** The event system

    [listeners: Map<string, Set<callback>>].  A callback is named by a
    number; a [Set] keeps its elements in insertion order and holds
    each at most once. *)
Definition Listeners : Type := string -> list nat.

Definition noListeners : Listeners := fun _ => [].

Definition setAdd (cb : nat) (s : list nat) : list nat :=
  if existsb (Nat.eqb cb) s then s else s ++ [cb].

Definition setDelete (cb : nat) (s : list nat) : list nat :=
  filter (fun c => negb (Nat.eqb cb c)) s.

(** [on(event, callback)] *)
Definition on (event : string) (cb : nat) (ls : Listeners) : Listeners :=
  fun e => if String.eqb e event then setAdd cb (ls e) else ls e.

(** [off(event, callback)] *)
Definition off (event : string) (cb : nat) (ls : Listeners) : Listeners :=
  fun e => if String.eqb e event then setDelete cb (ls e) else ls e.

(** [emit(event, data)]: the callbacks invoked, in order. *)
Definition called (event : string) (ls : Listeners) : list nat := ls event.

Inductive Registration : Type :=
| On (event : string) (cb : nat)
| Off (event : string) (cb : nat).

Definition register (ls : Listeners) (r : Registration) : Listeners :=
  match r with
  | On e cb => on e cb ls
  | Off e cb => off e cb ls
  end.

Definition registerAll (rs : list Registration) : Listeners :=
  fold_left register rs noListeners.

End QubicSDKOps.

(** *** lib/store : useUserStore *)

Module Store.

Record UserState : Type := mkUser {
  walletAddress : option string;
  isWalletConnected : bool
}.

Definition initialUser : UserState := mkUser None false.

(** [!!address]: [null] and the empty string are falsy. *)
Definition truthyAddress (a : option string) : bool :=
  match a with
  | None => false
  | Some s => negb (String.eqb s "")
  end.

Inductive UserAction : Type :=
| setWalletAddress (address_ : option string)
| connectWallet (address_ : string)
| disconnectWallet.

Definition userStep (st : UserState) (a : UserAction) : UserState :=
  match a with
  | setWalletAddress address_ => mkUser address_ (truthyAddress address_)
  | connectWallet address_ => mkUser (Some address_) true
  | disconnectWallet => mkUser None false
  end.

Definition userRun (acts : list UserAction) : UserState :=
  fold_left userStep acts initialUser.

End Store.

(** *** IPODetailPage, continued: countdown and progress bar *)

Module IPODetailView.
Import Api IPODetailPage.

Record TimeLeft : Type := mkTimeLeft {
  days : Z;
  hours : Z;
  minutes : Z;
  seconds : Z
}.

Definition MS_DAY : Z := 1000 * 60 * 60 * 24.
Definition MS_HOUR : Z := 1000 * 60 * 60.
Definition MS_MINUTE : Z := 1000 * 60.

(** [calculateTimeLeft]: [diff = Math.max(0, endTime - now)] split with
    [Math.floor], [/] and [%]. *)
Definition calculateTimeLeft (endTime_ now : Z) : TimeLeft :=
  let diff := Z.max 0 (endTime_ - now) in
  mkTimeLeft (diff / MS_DAY)
             (Z.rem diff MS_DAY / MS_HOUR)
             (Z.rem diff MS_HOUR / MS_MINUTE)
             (Z.rem diff MS_MINUTE / 1000).

(** [priceProgress =
    ((currentPrice - ipo.minPrice) / (ipo.maxPrice - ipo.minPrice)) * 100] *)
Definition priceProgress (l : IPOListing) (current : Q) : Q :=
  Double.mul (Double.div (Double.sub current (minPrice l))
                         (Double.sub (maxPrice l) (minPrice l)))
             100.

(** Success toasts shown so far. *)
Definition isBidPlaced (t : Toast) : bool :=
  String.eqb (title t) "Bid Placed Successfully!".

Definition successToasts (st : PageState) : nat :=
  List.length (filter isBidPlaced (toasts st)).

Definition inFlight (st : PageState) : nat :=
  if bidPending st then 1%nat else 0%nat.

(** The bookkeeping of bids: submitted = acknowledged + in flight. *)
Definition bidsAccounted (st : PageState) : Prop :=
  List.length (mutations st) = (successToasts st + inFlight st)%nat.

(** No event of [evs] connects the wallet. *)
Definition staysDisconnected (evs : list Event) : bool :=
  forallb (fun e => match e with WalletChanged true => false | _ => true end)
          evs.

End IPODetailView.

(** *** IPOCard and ProposalCard *)

Module Cards.

Local Open Scope Z_scope.

(** [daysLeft] and [hoursLeft] of [IPOCard] and [ProposalCard], from
    [timeLeft = new Date(endTime).getTime() - Date.now()], which is
    negative once the end has passed. *)
Definition daysLeft (timeLeft : Z) : Z :=
  Z.max 0 (timeLeft / IPODetailView.MS_DAY).

Definition hoursLeft (timeLeft : Z) : Z :=
  Z.max 0 (Z.rem timeLeft IPODetailView.MS_DAY / IPODetailView.MS_HOUR).

Local Open Scope Q_scope.

(** [ProposalCard]: the shares of the two bars.  Of [interface
    Proposal], the numeric fields. *)
Record Proposal : Type := mkProposal {
  votesFor : Z;
  votesAgainst : Z;
  totalVoters : Z;
  quorum : Z
}.

(** A field of the proposal as the number that the code computes
    with: the double nearest to the integer of the record. *)
Definition number (z : Z) : Q := Double.roundDouble (inject_Z z).

(** [const totalVotes = proposal.votesFor + proposal.votesAgainst] *)
Definition totalVotes (p : Proposal) : Q :=
  Double.add (number (votesFor p)) (number (votesAgainst p)).

(** [totalVotes > 0 ? (proposal.votesFor / totalVotes) * 100 : 50] *)
Definition forPercentage (p : Proposal) : Q :=
  if Qltb 0 (totalVotes p)
  then Double.mul (Double.div (number (votesFor p)) (totalVotes p)) 100
  else 50.

Definition againstPercentage (p : Proposal) : Q :=
  if Qltb 0 (totalVotes p)
  then Double.mul (Double.div (number (votesAgainst p)) (totalVotes p)) 100
  else 50.

End Cards.

(** *** Stream hooks *)

Module Streams.

(** A [WebSocketMessage]: its [type] and whether it carries [data]
    (the payload itself is opaque and named by a number). *)
Record Message : Type := mkMessage {
  type_ : string;
  data : option nat
}.

(** [useTradeStream]: [setTrades(prev => [message.data, ...prev.slice(0, 49)])]
    on a [trade_executed] message. *)
Definition onTradeMessage (trades : list (option nat)) (m : Message)
  : list (option nat) :=
  if String.eqb (type_ m) "trade_executed"
  then data m :: firstn 49 trades
  else trades.

Definition tradesAfter (ms : list Message) : list (option nat) :=
  fold_left onTradeMessage ms [].

Definition isTrade (m : Message) : bool :=
  String.eqb (type_ m) "trade_executed".

(** [useNotifications] *)
Record Notifications : Type := mkNotifications {
  notifications : list Message;
  unreadCount : Z
}.

Inductive NotificationEvent : Type :=
| Received (m : Message)
| Acknowledge (notificationId : string)
| ClearAll.

Definition counted (m : Message) : bool :=
  negb (String.eqb (type_ m) "pong")
  && negb (String.eqb (type_ m) "connected")
  && negb (String.eqb (type_ m) "ack_confirmed").

Definition notificationStep (st : Notifications) (e : NotificationEvent)
  : Notifications :=
  match e with
  | Received m =>
      if counted m
      then mkNotifications (m :: firstn 49 (notifications st))
                           (unreadCount st + 1)
      else st
  | Acknowledge _ =>
      mkNotifications (notifications st) (Z.max 0 (unreadCount st - 1))
  | ClearAll => mkNotifications [] 0
  end.

Definition notificationRun (es : list NotificationEvent) : Notifications :=
  fold_left notificationStep es (mkNotifications [] 0).

(** [useGovernanceStream].  The hook takes every truthy
    [message.data]; its [vote] member is ['for'], ['against'], or
    anything else, a missing member included ([voteOther]). *)
Inductive VoteSide : Type := voteFor | voteAgainst | voteOther.

Record VoteMessage : Type := mkVoteMessage {
  voteType : string;
  voteData : option VoteSide
}.

(** [votes] and the two members [for] and [against] of [voteCount]. *)
Record Governance : Type := mkGovernance {
  votes : list VoteSide;
  countFor : Z;
  countAgainst : Z
}.

(** [setVotes(prev => [message.data, ...prev.slice(0, 99)])] and
    [setVoteCount(prev => ({ ...prev, [data.vote]: prev[data.vote] + 1 }))]:
    a [vote] other than ['for'] and ['against'] writes a member of its
    own name and leaves those two as they are. *)
Definition onVoteMessage (st : Governance) (m : VoteMessage) : Governance :=
  if String.eqb (voteType m) "vote_cast" then
    match voteData m with
    | Some voteFor =>
        mkGovernance (voteFor :: firstn 99 (votes st))
                     (countFor st + 1) (countAgainst st)
    | Some voteAgainst =>
        mkGovernance (voteAgainst :: firstn 99 (votes st))
                     (countFor st) (countAgainst st + 1)
    | Some voteOther =>
        mkGovernance (voteOther :: firstn 99 (votes st))
                     (countFor st) (countAgainst st)
    | None => st
    end
  else st.

Definition governanceAfter (ms : list VoteMessage) : Governance :=
  fold_left onVoteMessage ms (mkGovernance [] 0 0).




End Streams.

(** *** hooks/useQubic : useDutchAuction *)

Module Hooks.
Import QubicSDK.

(** The [useState] cells of [useDutchAuction]. *)
Record AuctionHook : Type := mkAuctionHook {
  hookPrice : option Z;
  isLoading : bool;
  error : option string
}.

(** [placeBid] of the hook: [setIsLoading(true)], [setError(null)],
    then [qubicSDK.placeBid]; a thrown error sets [error] to its message
    and is thrown again; [finally] clears [isLoading]. *)
Definition hookPlaceBid (h : Host) (auctionId : string)
           (amount_ maxPrice : Z) (hk : AuctionHook) (st : SDKState)
  : Result QubicTransaction * AuctionHook * SDKState :=
  match placeBid h auctionId amount_ maxPrice st with
  | (Ok tx, st') => (Ok tx, mkAuctionHook (hookPrice hk) false None, st')
  | (Throw msg, st') =>
      (Throw msg, mkAuctionHook (hookPrice hk) false (Some msg), st')
  end.

End Hooks.

(** * Properties *)

(** ** Finite-number helpers *)

Lemma Qltb_lt (a b : Q) : Qltb a b = true <-> a < b.
Proof.
  unfold Qltb. rewrite negb_true_iff. split.
  - intros H. apply Qnot_le_lt. intros Hle.
    apply Qle_bool_iff in Hle. congruence.
  - intros H. destruct (Qle_bool b a) eqn:E; [|reflexivity].
    apply Qle_bool_iff in E. lra.
Qed.

Lemma Qltb_ge (a b : Q) : Qltb a b = false <-> b <= a.
Proof.
  unfold Qltb. rewrite negb_false_iff. apply Qle_bool_iff.
Qed.

Lemma jsOr_zero (a : Q) : jsOr a 0 == a.
Proof.
  unfold jsOr. destruct (Qeq_bool a 0) eqn:E; [|reflexivity].
  apply Qeq_bool_iff in E. lra.
Qed.


(** ** Rounding to binary64 *)

Module DoubleFacts.
Import Double.

Lemma pow2_pos e : 0 < pow2 e.
Proof. apply Qpower_0_lt. reflexivity. Qed.

Lemma pow2_add a b : pow2 (a + b) == pow2 a * pow2 b.
Proof. apply Qpower_plus. discriminate. Qed.


Lemma pow2_le a b : (a <= b)%Z -> pow2 a <= pow2 b.
Proof. intros H. apply Qpower_le_compat_l; [exact H | discriminate]. Qed.

Lemma pow2_lt a b : (a < b)%Z -> pow2 a < pow2 b.
Proof. intros H. apply Qpower_lt_compat_l; [exact H | reflexivity]. Qed.

Lemma pow2_Z n : (0 <= n)%Z -> pow2 n == inject_Z (2 ^ n).
Proof. intros H. unfold pow2. rewrite Zpower_Qpower by exact H. reflexivity. Qed.

Lemma Q_as_fraction x : x * inject_Z (Zpos (Qden x)) == inject_Z (Qnum x).
Proof.
  destruct x as [n d]. unfold Qeq, inject_Z. simpl. lia.
Qed.

Lemma ilog2_spec x : 0 < x -> pow2 (ilog2 x) <= x /\ x < pow2 (ilog2 x + 1).
Proof.
  intros Hx.
  pose proof (Q_as_fraction x) as Hf.
  assert (Hn : (0 < Qnum x)%Z).
  { destruct x as [n d]. unfold Qlt in Hx. simpl in *. lia. }
  destruct (Z.log2_spec (Qnum x) Hn) as [Ha1 Ha2].
  destruct (Z.log2_spec (Zpos (Qden x)) (Pos2Z.is_pos _)) as [Hb1 Hb2].
  set (a := Z.log2 (Qnum x)) in *. set (b := Z.log2 (Zpos (Qden x))) in *.
  assert (Ha : (0 <= a)%Z) by apply Z.log2_nonneg.
  assert (Hb : (0 <= b)%Z) by apply Z.log2_nonneg.
  assert (Ha1' : pow2 a <= inject_Z (Qnum x)).
  { rewrite pow2_Z by exact Ha. rewrite <- Zle_Qle. exact Ha1. }
  assert (Ha2' : inject_Z (Qnum x) < pow2 (a + 1)).
  { rewrite pow2_Z by lia. rewrite <- Zlt_Qlt. unfold Z.succ in Ha2. exact Ha2. }
  assert (Hb1' : pow2 b <= inject_Z (Zpos (Qden x))).
  { rewrite pow2_Z by exact Hb. rewrite <- Zle_Qle. exact Hb1. }
  assert (Hb2' : inject_Z (Zpos (Qden x)) < pow2 (b + 1)).
  { rewrite pow2_Z by lia. rewrite <- Zlt_Qlt. unfold Z.succ in Hb2. exact Hb2. }
  set (D := inject_Z (Zpos (Qden x))) in *.
  assert (HD : 0 < D) by (unfold D; rewrite Zlt_Qlt in *; reflexivity).
  assert (Hlow : pow2 (a - b - 1) < x).
  { apply Qmult_lt_r with (z := D); [exact HD|].
    rewrite Hf.
    apply Qlt_le_trans with (pow2 (a - b - 1) * pow2 (b + 1)).
    - apply Qmult_lt_l; [apply pow2_pos | exact Hb2'].
    - rewrite <- pow2_add. replace (a - b - 1 + (b + 1))%Z with a by lia. exact Ha1'. }
  assert (Hhigh : x < pow2 (a - b + 1)).
  { apply Qmult_lt_r with (z := D); [exact HD|].
    rewrite Hf.
    apply Qlt_le_trans with (pow2 (a - b + 1) * pow2 b).
    - rewrite <- pow2_add. replace (a - b + 1 + b)%Z with (a + 1)%Z by lia. exact Ha2'.
    - apply Qmult_le_l; [apply pow2_pos | exact Hb1']. }
  unfold ilog2. fold a b.
  destruct (Qle_bool (pow2 (a - b)) x) eqn:E.
  - apply Qle_bool_iff in E. split; assumption.
  - assert (Hlt : x < pow2 (a - b)).
    { apply Qnot_le_lt. intros H. apply Qle_bool_iff in H. congruence. }
    split.
    + apply Qlt_le_weak. exact Hlow.
    + replace (a - b - 1 + 1)%Z with (a - b)%Z by lia. exact Hlt.
Qed.

Lemma ilog2_unique x L : pow2 L <= x -> x < pow2 (L + 1) -> ilog2 x = L.
Proof.
  intros H1 H2.
  assert (Hx : 0 < x) by (eapply Qlt_le_trans; [apply (pow2_pos L) | exact H1]).
  destruct (ilog2_spec x Hx) as [H3 H4].
  destruct (Z.lt_trichotomy (ilog2 x) L) as [Hlt | [Heq | Hgt]].
  - exfalso. assert (pow2 (ilog2 x + 1) <= pow2 L) by (apply pow2_le; lia). lra.
  - exact Heq.
  - exfalso. assert (pow2 (L + 1) <= pow2 (ilog2 x)) by (apply pow2_le; lia). lra.
Qed.

Lemma ilog2_mono x y : 0 < x -> x <= y -> (ilog2 x <= ilog2 y)%Z.
Proof.
  intros Hx Hxy.
  assert (Hy : 0 < y) by lra.
  destruct (ilog2_spec x Hx) as [H1 H2]. destruct (ilog2_spec y Hy) as [H3 H4].
  destruct (Z.le_gt_cases (ilog2 x) (ilog2 y)) as [H | H]; [exact H|].
  exfalso. assert (pow2 (ilog2 y + 1) <= pow2 (ilog2 x)) by (apply pow2_le; lia). lra.
Qed.

Lemma Qfloor_unique q z : inject_Z z <= q -> q < inject_Z (z + 1) -> Qfloor q = z.
Proof.
  intros H1 H2.
  pose proof (Qfloor_le q) as H3. pose proof (Qlt_floor q) as H4.
  assert (inject_Z z < inject_Z (Qfloor q + 1)) as H5 by lra.
  assert (inject_Z (Qfloor q) < inject_Z (z + 1)) as H6 by lra.
  rewrite <- Zlt_Qlt in H5, H6. lia.
Qed.

#[global] Instance roundHalfEven_comp : Proper (Qeq ==> eq) roundHalfEven.
Proof.
  intros q q' E. unfold roundHalfEven. rewrite (Qfloor_comp q q' E).
  assert (E' : q - inject_Z (Qfloor q') == q' - inject_Z (Qfloor q')) by (rewrite E; reflexivity).
  rewrite (Qcompare_comp _ _ E' (1 # 2) (1 # 2) (Qeq_refl _)). reflexivity.
Qed.

Lemma roundHalfEven_floor q :
  (Qfloor q <= roundHalfEven q <= Qfloor q + 1)%Z.
Proof.
  unfold roundHalfEven.
  destruct (Qcompare (q - inject_Z (Qfloor q)) (1 # 2)); [destruct (Z.even (Qfloor q))| |]; lia.
Qed.


Lemma roundHalfEven_Z z : roundHalfEven (inject_Z z) = z.
Proof.
  unfold roundHalfEven. rewrite Qfloor_Z.
  destruct (Qcompare_spec (inject_Z z - inject_Z z) (1 # 2)) as [E | E | E]; [lra | reflexivity | lra].
Qed.

Lemma roundHalfEven_mono q1 q2 : q1 <= q2 -> (roundHalfEven q1 <= roundHalfEven q2)%Z.
Proof.
  intros H.
  pose proof (Qfloor_resp_le q1 q2 H) as Hf.
  pose proof (roundHalfEven_floor q1) as B1. pose proof (roundHalfEven_floor q2) as B2.
  destruct (Z.eq_dec (Qfloor q1) (Qfloor q2)) as [E | NE]; [|lia].
  revert B1 B2. unfold roundHalfEven. rewrite E.
  destruct (Qcompare_spec (q1 - inject_Z (Qfloor q2)) (1 # 2)) as [E1 | E1 | E1];
    destruct (Qcompare_spec (q2 - inject_Z (Qfloor q2)) (1 # 2)) as [E2 | E2 | E2];
    destruct (Z.even (Qfloor q2)); intros; try lia; exfalso; lra.
Qed.

Lemma roundHalfEven_opp q : roundHalfEven (- q) = (- roundHalfEven q)%Z.
Proof.
  pose proof (Qfloor_le q) as H3. pose proof (Qlt_floor q) as H4.
  rewrite inject_Z_plus in H4. change (inject_Z 1) with 1 in H4.
  destruct (Qeq_dec q (inject_Z (Qfloor q))) as [E | NE].
  - assert (E1 : roundHalfEven (- q) = roundHalfEven (inject_Z (- Qfloor q))).
    { apply roundHalfEven_comp. rewrite inject_Z_opp, <- E. reflexivity. }
    rewrite E1, (roundHalfEven_comp _ _ E), !roundHalfEven_Z. reflexivity.
  - assert (Hlt : inject_Z (Qfloor q) < q).
    { apply Qle_lteq in H3. destruct H3 as [H3 | H3]; [exact H3|]. exfalso. apply NE. symmetry. exact H3. }
    assert (Ef : Qfloor (- q) = (- Qfloor q - 1)%Z).
    { apply Qfloor_unique.
      - unfold Zminus. rewrite inject_Z_plus, !inject_Z_opp. change (inject_Z 1) with 1. lra.
      - replace (- Qfloor q - 1 + 1)%Z with (- Qfloor q)%Z by lia. rewrite inject_Z_opp. lra. }
    assert (Hpar : Z.even (- Qfloor q - 1) = negb (Z.even (Qfloor q))).
    { rewrite Z.even_sub, Z.even_opp. destruct (Z.even (Qfloor q)); reflexivity. }
    assert (Hinj : inject_Z (- Qfloor q - 1) == - inject_Z (Qfloor q) + - 1).
    { unfold Zminus. rewrite inject_Z_plus, !inject_Z_opp. reflexivity. }
    unfold roundHalfEven. rewrite Ef, Hpar.
    assert (Hc : - q - inject_Z (- Qfloor q - 1) == - q - (- inject_Z (Qfloor q) + - 1))
      by (rewrite Hinj; reflexivity).
    rewrite (Qcompare_comp _ _ Hc (1 # 2) (1 # 2) (Qeq_refl _)).
    destruct (Qcompare_spec (- q - (- inject_Z (Qfloor q) + - 1)) (1 # 2)) as [E1 | E1 | E1];
      destruct (Qcompare_spec (q - inject_Z (Qfloor q)) (1 # 2)) as [E2 | E2 | E2];
      try (exfalso; lra); destruct (Z.even (Qfloor q)); simpl; lia.
Qed.

Lemma ilog2_eq x y : 0 < x -> x == y -> ilog2 x = ilog2 y.
Proof.
  intros Hx E. destruct (ilog2_spec x Hx) as [H1 H2].
  symmetry. apply ilog2_unique; rewrite <- E; assumption.
Qed.

Lemma roundDouble_unfold x :
  roundDouble x = inject_Z (roundHalfEven (x / pow2 (ulpExponent x))) * pow2 (ulpExponent x).
Proof. reflexivity. Qed.

Lemma roundDouble_zero x : x == 0 -> roundDouble x == 0.
Proof.
  intros E. rewrite roundDouble_unfold.
  assert (E' : forall p, x / p == inject_Z 0) by (intros p; rewrite E; reflexivity).
  rewrite (roundHalfEven_comp _ _ (E' _)), roundHalfEven_Z. ring.
Qed.

Lemma Qabs_pos_lt x : ~ x == 0 -> 0 < Qabs x.
Proof.
  intros H. apply Qabs_case; intros H1.
  - apply Qle_lteq in H1. destruct H1 as [H1 | H1]; [exact H1|].
    exfalso. apply H. symmetry. exact H1.
  - apply Qle_lteq in H1. destruct H1 as [H1 | H1]; [lra|].
    exfalso. apply H. exact H1.
Qed.

Lemma ulpExponent_eq x y : ~ x == 0 -> x == y -> ulpExponent x = ulpExponent y.
Proof.
  intros H E. unfold ulpExponent.
  rewrite (ilog2_eq (Qabs x) (Qabs y)); [reflexivity | apply Qabs_pos_lt; exact H | rewrite E; reflexivity].
Qed.

#[global] Instance roundDouble_comp : Proper (Qeq ==> Qeq) roundDouble.
Proof.
  intros x y E. destruct (Qeq_dec x 0) as [Z | NZ].
  - rewrite (roundDouble_zero x Z), (roundDouble_zero y); [reflexivity | rewrite <- E; exact Z].
  - rewrite !roundDouble_unfold, <- (ulpExponent_eq x y NZ E).
    assert (E' : forall p, x / p == y / p) by (intros p; rewrite E; reflexivity).
    rewrite (roundHalfEven_comp _ _ (E' _)). reflexivity.
Qed.

Lemma roundDouble_opp x : roundDouble (- x) == - roundDouble x.
Proof.
  destruct (Qeq_dec x 0) as [Z | NZ].
  - rewrite (roundDouble_zero x Z), (roundDouble_zero (- x)); [reflexivity | rewrite Z; reflexivity].
  - rewrite !roundDouble_unfold.
    assert (Ee : ulpExponent (- x) = ulpExponent x).
    { unfold ulpExponent. rewrite (ilog2_eq (Qabs (- x)) (Qabs x)); [reflexivity | | apply Qabs_opp].
      apply Qabs_pos_lt. intros H. apply NZ. lra. }
    rewrite Ee.
    assert (E' : - x / pow2 (ulpExponent x) == - (x / pow2 (ulpExponent x))).
    { field. apply Qnot_eq_sym, Qlt_not_eq, pow2_pos. }
    rewrite (roundHalfEven_comp _ _ E'), roundHalfEven_opp, inject_Z_opp. ring.
Qed.

Lemma roundDouble_nonneg x : 0 <= x -> 0 <= roundDouble x.
Proof.
  intros H. rewrite roundDouble_unfold.
  pose proof (pow2_pos (ulpExponent x)) as Hp.
  apply Qmult_le_0_compat; [|lra].
  assert (Hq : inject_Z 0 <= x / pow2 (ulpExponent x)).
  { apply Qle_shift_div_l; [exact Hp|]. change (inject_Z 0) with 0. lra. }
  apply roundHalfEven_mono in Hq. rewrite roundHalfEven_Z in Hq.
  change 0 with (inject_Z 0). rewrite <- Zle_Qle. exact Hq.
Qed.

Lemma roundDouble_nonpos x : x <= 0 -> roundDouble x <= 0.
Proof.
  intros H. assert (H' : 0 <= - x) by lra.
  apply roundDouble_nonneg in H'. rewrite roundDouble_opp in H'. lra.
Qed.

Lemma ulpExponent_pos x : 0 < x -> ulpExponent x = Z.max (ilog2 x - 52) (-1074).
Proof.
  intros H. unfold ulpExponent. rewrite (ilog2_eq (Qabs x) x); [reflexivity | | apply Qabs_pos; lra].
  rewrite Qabs_pos; lra.
Qed.

Lemma scaled_lt x e k : x < pow2 (k + e) -> x / pow2 e < pow2 k.
Proof.
  intros H. apply Qlt_shift_div_r; [apply pow2_pos|]. rewrite <- pow2_add. exact H.
Qed.

Lemma scaled_le x e k : pow2 (k + e) <= x -> pow2 k <= x / pow2 e.
Proof.
  intros H. apply Qle_shift_div_l; [apply pow2_pos|]. rewrite <- pow2_add. exact H.
Qed.

Lemma roundHalfEven_le_pow2 q k : (0 <= k)%Z -> q <= pow2 k -> (roundHalfEven q <= 2 ^ k)%Z.
Proof.
  intros Hk H. rewrite pow2_Z in H by exact Hk.
  apply roundHalfEven_mono in H. rewrite roundHalfEven_Z in H. exact H.
Qed.

Lemma roundHalfEven_ge_pow2 q k : (0 <= k)%Z -> pow2 k <= q -> (2 ^ k <= roundHalfEven q)%Z.
Proof.
  intros Hk H. rewrite pow2_Z in H by exact Hk.
  apply roundHalfEven_mono in H. rewrite roundHalfEven_Z in H. exact H.
Qed.

Lemma roundDouble_mono_pos x y : 0 < x -> x <= y -> roundDouble x <= roundDouble y.
Proof.
  intros Hx Hxy. assert (Hy : 0 < y) by lra.
  rewrite !roundDouble_unfold, (ulpExponent_pos x Hx), (ulpExponent_pos y Hy).
  pose proof (ilog2_mono x y Hx Hxy) as HL.
  destruct (ilog2_spec x Hx) as [Hx1 Hx2]. destruct (ilog2_spec y Hy) as [Hy1 Hy2].
  set (Lx := ilog2 x) in *. set (Ly := ilog2 y) in *.
  set (ex := Z.max (Lx - 52) (-1074)). set (ey := Z.max (Ly - 52) (-1074)).
  pose proof (pow2_pos ex) as Pex. pose proof (pow2_pos ey) as Pey.
  destruct (Z.eq_dec ex ey) as [E | NE].
  - rewrite <- E. apply Qmult_le_compat_r; [|lra].
    rewrite <- Zle_Qle. apply roundHalfEven_mono.
    apply Qmult_le_compat_r; [exact Hxy|]. apply Qlt_le_weak, Qinv_lt_0_compat, Pex.
  - assert (Hlt : (ex < ey)%Z) by lia.
    assert (Hey : ey = (Ly - 52)%Z) by lia.
    apply Qle_trans with (pow2 Ly).
    + set (k := Z.max (Lx + 1 - ex) 0).
      assert (Hk : (0 <= k)%Z) by lia.
      apply Qle_trans with (inject_Z (2 ^ k) * pow2 ex).
      * apply Qmult_le_compat_r; [|lra]. rewrite <- Zle_Qle.
        apply roundHalfEven_le_pow2; [exact Hk|].
        apply Qlt_le_weak, scaled_lt.
        eapply Qlt_le_trans; [exact Hx2|]. apply pow2_le. lia.
      * rewrite <- pow2_Z by exact Hk. rewrite <- pow2_add. apply pow2_le. lia.
    + apply Qle_trans with (inject_Z (2 ^ 52) * pow2 ey).
      * rewrite <- pow2_Z by lia. rewrite <- pow2_add. apply pow2_le. lia.
      * apply Qmult_le_compat_r; [|lra]. rewrite <- Zle_Qle.
        apply roundHalfEven_ge_pow2; [lia|].
        apply scaled_le. eapply Qle_trans; [|exact Hy1]. apply pow2_le. lia.
Qed.

Theorem roundDouble_mono x y : x <= y -> roundDouble x <= roundDouble y.
Proof.
  intros H.
  destruct (Qlt_le_dec 0 x) as [Hx | Hx]; [apply roundDouble_mono_pos; assumption|].
  destruct (Qlt_le_dec y 0) as [Hy | Hy].
  - assert (H' : roundDouble (- y) <= roundDouble (- x)) by (apply roundDouble_mono_pos; lra).
    rewrite !roundDouble_opp in H'. lra.
  - pose proof (roundDouble_nonpos x Hx). pose proof (roundDouble_nonneg y Hy). lra.
Qed.

Lemma isDouble_intro x m e :
  x == inject_Z m * pow2 e -> (ulpExponent x <= e)%Z -> isDouble x.
Proof.
  intros E He. unfold isDouble. rewrite roundDouble_unfold.
  set (u := ulpExponent x) in *.
  assert (Hp : pow2 e == inject_Z (2 ^ (e - u)) * pow2 u).
  { rewrite <- pow2_Z by lia. rewrite <- pow2_add. replace (e - u + u)%Z with e by lia. reflexivity. }
  assert (Hq : x / pow2 u == inject_Z (m * 2 ^ (e - u))).
  { rewrite E, Hp, inject_Z_mult. field. apply Qnot_eq_sym, Qlt_not_eq, pow2_pos. }
  rewrite (roundHalfEven_comp _ _ Hq), roundHalfEven_Z, E, Hp, inject_Z_mult. ring.
Qed.

Lemma roundDouble_idem_pos x : 0 < x -> isDouble (roundDouble x).
Proof.
  intros Hx.
  destruct (ilog2_spec x Hx) as [Hx1 Hx2].
  pose proof (ulpExponent_pos x Hx) as He.
  rewrite roundDouble_unfold.
  set (e := ulpExponent x) in *. set (L := ilog2 x) in *.
  set (m := roundHalfEven (x / pow2 e)).
  pose proof (pow2_pos e) as Pe.
  assert (Hm0 : (0 <= m)%Z).
  { assert (Hq : inject_Z 0 <= x / pow2 e).
    { apply Qle_shift_div_l; [exact Pe|]. change (inject_Z 0) with 0. lra. }
    apply roundHalfEven_mono in Hq. rewrite roundHalfEven_Z in Hq. exact Hq. }
  assert (Hm1 : (m <= 2 ^ 53)%Z).
  { apply roundHalfEven_le_pow2; [lia|]. apply Qlt_le_weak, scaled_lt.
    eapply Qlt_le_trans; [exact Hx2|]. apply pow2_le. lia. }
  destruct (Z.eq_dec m 0) as [Z0 | NZ].
  - unfold isDouble. rewrite Z0.
    rewrite roundDouble_zero; [ring | ring].
  - set (r := inject_Z m * pow2 e).
    assert (Hr0 : pow2 e <= r).
    { unfold r. rewrite <- (Qmult_1_l (pow2 e)) at 1.
      apply Qmult_le_compat_r; [|lra]. change 1 with (inject_Z 1). rewrite <- Zle_Qle. lia. }
    assert (Hrpos : 0 < r) by lra.
    assert (Habs : Qabs r == r) by (apply Qabs_pos; lra).
    destruct (Z.eq_dec m (2 ^ 53)) as [Emax | Nmax].
    + assert (Er : r == pow2 (e + 53)).
      { unfold r. rewrite Emax, <- pow2_Z by lia. rewrite <- pow2_add. 
        replace (53 + e)%Z with (e + 53)%Z by lia. reflexivity. }
      apply isDouble_intro with (m := (2 ^ 52)%Z) (e := (e + 1)%Z).
      * rewrite Er, <- pow2_Z by lia. rewrite <- pow2_add.
        replace (52 + (e + 1))%Z with (e + 53)%Z by lia. reflexivity.
      * unfold ulpExponent.
        rewrite (ilog2_unique (Qabs r) (e + 53)).
        -- lia.
        -- rewrite Habs, Er. apply Qle_refl.
        -- rewrite Habs, Er. apply pow2_lt. lia.
    + apply isDouble_intro with (m := m) (e := e); [reflexivity|].
      assert (Hlt : r < pow2 (e + 53)).
      { unfold r. rewrite pow2_add, (Qmult_comm (pow2 e)).
        apply Qmult_lt_r; [exact Pe|]. rewrite pow2_Z by lia. rewrite <- Zlt_Qlt. lia. }
      unfold ulpExponent.
      assert (Hpos : 0 < Qabs r) by (rewrite Habs; exact Hrpos).
      destruct (ilog2_spec (Qabs r) Hpos) as [H1 H2].
      assert (Hle : Qabs r <= r) by (rewrite Habs; apply Qle_refl).
      assert (Hl : (ilog2 (Qabs r) < e + 53)%Z).
      { apply Qpower_lt_compat_l_inv with (q := 2); [|reflexivity].
        fold (pow2 (ilog2 (Qabs r))). fold (pow2 (e + 53)). lra. }
      lia.
Qed.

Lemma isDouble_opp x : isDouble x -> isDouble (- x).
Proof. unfold isDouble. intros H. rewrite roundDouble_opp, H. reflexivity. Qed.

Lemma isDouble_comp x y : x == y -> isDouble x -> isDouble y.
Proof. unfold isDouble. intros E H. rewrite <- E. exact H. Qed.

Theorem roundDouble_idem x : isDouble (roundDouble x).
Proof.
  destruct (Qlt_le_dec 0 x) as [Hx | Hx]; [apply roundDouble_idem_pos; exact Hx|].
  destruct (Qeq_dec x 0) as [Z0 | NZ].
  - unfold isDouble. rewrite (roundDouble_zero x Z0). apply roundDouble_zero. reflexivity.
  - assert (Hn : 0 < - x).
    { apply Qle_lteq in Hx. destruct Hx as [Hx | Hx]; [lra | contradiction]. }
    apply roundDouble_idem_pos, isDouble_opp in Hn.
    apply (isDouble_comp _ _ (Qeq_trans _ _ _ (Qopp_comp _ _ (roundDouble_opp x)) (Qopp_involutive _))).
    exact Hn.
Qed.



(** Every double is a multiple of the smallest subnormal number, so
    that two doubles that differ are at least that far apart and their
    rounded difference is not zero. *)
Lemma isDouble_grid x : isDouble x -> exists m : Z, x == inject_Z m * pow2 (-1074).
Proof.
  unfold isDouble. rewrite roundDouble_unfold. intros H.
  set (e := ulpExponent x) in *.
  assert (He : (-1074 <= e)%Z) by (unfold e, ulpExponent; lia).
  exists (roundHalfEven (x / pow2 e) * 2 ^ (e + 1074))%Z.
  rewrite <- H at 1. rewrite inject_Z_mult, <- pow2_Z by lia.
  rewrite <- Qmult_assoc, <- pow2_add.
  replace (e + 1074 + -1074)%Z with e by lia. reflexivity.
Qed.

Lemma isDouble_smallest : isDouble (pow2 (-1074)).
Proof.
  apply isDouble_intro with (m := 1%Z) (e := (-1074)%Z); [ring|].
  unfold ulpExponent.
  rewrite (ilog2_unique (Qabs (pow2 (-1074))) (-1074)).
  - lia.
  - rewrite Qabs_pos; [apply Qle_refl | apply Qlt_le_weak, pow2_pos].
  - rewrite Qabs_pos; [apply pow2_lt; lia | apply Qlt_le_weak, pow2_pos].
Qed.

Lemma roundDouble_difference_pos a b :
  isDouble a -> isDouble b -> a < b -> 0 < roundDouble (b - a).
Proof.
  intros Ha Hb Hlt.
  destruct (isDouble_grid a Ha) as [ma Ea]. destruct (isDouble_grid b Hb) as [mb Eb].
  pose proof (pow2_pos (-1074)) as Hg.
  assert (Hm : (ma < mb)%Z).
  { rewrite Ea, Eb in Hlt. apply Qmult_lt_r in Hlt; [|exact Hg].
    rewrite <- Zlt_Qlt in Hlt. exact Hlt. }
  assert (Hge : pow2 (-1074) <= b - a).
  { rewrite Ea, Eb.
    assert (H1 : 1 <= inject_Z mb - inject_Z ma).
    { unfold Qminus. rewrite <- inject_Z_opp, <- inject_Z_plus.
      change 1 with (inject_Z 1). rewrite <- Zle_Qle. lia. }
    assert (H2 : 1 * pow2 (-1074) <= (inject_Z mb - inject_Z ma) * pow2 (-1074))
      by (apply Qmult_le_compat_r; lra).
    lra. }
  apply roundDouble_mono in Hge.
  pose proof isDouble_smallest as Hs. unfold isDouble in Hs. lra.
Qed.

Lemma isDouble_0 : isDouble 0.
Proof. vm_compute. reflexivity. Qed.

Lemma isDouble_1 : isDouble 1.
Proof. vm_compute. reflexivity. Qed.

Lemma isDouble_100 : isDouble 100.
Proof. vm_compute. reflexivity. Qed.

(** [(a / t) * 100] of a part [a] of a total [t] is a percentage. *)
Lemma share_bounded (a t : Q) :
  0 <= a <= t -> 0 < t -> 0 <= mul (div a t) 100 <= 100.
Proof.
  intros [Ha Hat] Ht. unfold mul, div.
  assert (H0 : 0 <= a / t) by (apply Qle_shift_div_l; lra).
  assert (H1 : a / t <= 1) by (apply Qle_shift_div_r; lra).
  apply roundDouble_mono in H0. apply roundDouble_mono in H1.
  pose proof isDouble_0 as E0. pose proof isDouble_1 as E1.
  pose proof isDouble_100 as E100. unfold isDouble in *.
  assert (G0 : 0 <= roundDouble (a / t) * 100) by lra.
  assert (G1 : roundDouble (a / t) * 100 <= 100) by lra.
  apply roundDouble_mono in G0. apply roundDouble_mono in G1.
  split; lra.
Qed.

End DoubleFacts.

(** ** The price countdown *)

Module PriceFacts.
Import Api IPODetailPage.






Lemma isDouble_Qmax (a b : Q) :
  Double.isDouble a -> Double.isDouble b -> Double.isDouble (Qmax a b).
Proof.
  intros Ha Hb. destruct (Q.max_spec a b) as [[_ E] | [_ E]];
    symmetry in E; eapply DoubleFacts.isDouble_comp; eauto.
Qed.

(** [Math.max(ipo.minPrice, ...)] is a floor whatever the listing. *)
Lemma priceTick_floor (l : IPOListing) (prev : Q) :
  minPrice l <= priceTick l prev.
Proof. unfold priceTick. apply Q.le_max_l. Qed.



Section Countdown.

Variable l : IPOListing.
Hypothesis Hrange : minPrice l <= maxPrice l.
Hypothesis Hmin : Double.isDouble (minPrice l).

Lemma decrease_nonneg : 0 <= decrease l.
Proof.
  unfold decrease, Double.div, Double.sub.
  apply DoubleFacts.roundDouble_nonneg.
  assert (H : 0 <= Double.roundDouble (maxPrice l - minPrice l))
    by (apply DoubleFacts.roundDouble_nonneg; lra).
  apply Qle_shift_div_l; [reflexivity | lra].
Qed.

(** Subtracting the decrement from a double does not go above it. *)
Lemma sub_decrease_le (prev : Q) :
  Double.isDouble prev -> Double.sub prev (decrease l) <= prev.
Proof.
  intros Hp. pose proof decrease_nonneg as Hd. unfold Double.sub.
  assert (H : Double.roundDouble (prev - decrease l) <= Double.roundDouble prev)
    by (apply DoubleFacts.roundDouble_mono; lra).
  unfold Double.isDouble in Hp. lra.
Qed.

Lemma priceTick_le (prev : Q) :
  Double.isDouble prev -> minPrice l <= prev -> priceTick l prev <= prev.
Proof.
  intros Hd Hp. unfold priceTick.
  apply Q.max_lub; [exact Hp | apply sub_decrease_le, Hd].
Qed.

Lemma priceTick_isDouble (prev : Q) : Double.isDouble (priceTick l prev).
Proof.
  unfold priceTick. apply isDouble_Qmax; [exact Hmin|].
  apply DoubleFacts.roundDouble_idem.
Qed.

Lemma tickIfActive_le (prev : Q) :
  Double.isDouble prev -> minPrice l <= prev -> tickIfActive l prev <= prev.
Proof.
  intros Hd Hp. unfold tickIfActive.
  destruct (IPOStatus_eqb (status l) active);
    [apply priceTick_le; assumption | lra].
Qed.

Lemma tickIfActive_floor (prev : Q) :
  minPrice l <= prev -> minPrice l <= tickIfActive l prev.
Proof.
  intros Hp. unfold tickIfActive.
  destruct (IPOStatus_eqb (status l) active);
    [apply priceTick_floor | exact Hp].
Qed.

Lemma tickIfActive_isDouble (prev : Q) :
  Double.isDouble prev -> Double.isDouble (tickIfActive l prev).
Proof.
  intros Hd. unfold tickIfActive.
  destruct (IPOStatus_eqb (status l) active);
    [apply priceTick_isDouble | exact Hd].
Qed.

(** The countdown from any double [p] at or above the floor. *)
Lemma countdown_inv (p : Q) (n : nat) :
  Double.isDouble p -> minPrice l <= p ->
  Double.isDouble (Nat.iter n (tickIfActive l) p)
  /\ minPrice l <= Nat.iter n (tickIfActive l) p.
Proof.
  intros Hd Hp. induction n as [|n [IH1 IH2]]; simpl.
  - split; assumption.
  - split; [apply tickIfActive_isDouble, IH1 | apply tickIfActive_floor, IH2].
Qed.

Lemma countdown_step (p : Q) (n : nat) :
  Double.isDouble p -> minPrice l <= p ->
  Nat.iter (S n) (tickIfActive l) p <= Nat.iter n (tickIfActive l) p.
Proof.
  intros Hd Hp. destruct (countdown_inv p n Hd Hp) as [H1 H2].
  simpl. apply tickIfActive_le; assumption.
Qed.

Lemma countdown_mono (p : Q) (n m : nat) :
  Double.isDouble p -> minPrice l <= p -> (n <= m)%nat ->
  Nat.iter m (tickIfActive l) p <= Nat.iter n (tickIfActive l) p.
Proof.
  intros Hd Hp. induction 1 as [|m Hle IH]; [lra|].
  pose proof (countdown_step p m Hd Hp). lra.
Qed.


Hypothesis Hstart : minPrice l <= initialPrice l.
Hypothesis Hp0 : Double.isDouble (initialPrice l).


Lemma priceAfter_isDouble (n : nat) : Double.isDouble (priceAfter l n).
Proof. apply countdown_inv; assumption. Qed.




End Countdown.

Lemma elapsedTicks_mono (loaded t1 t2 : Z) :
  (t1 <= t2)%Z -> (elapsedTicks loaded t1 <= elapsedTicks loaded t2)%nat.
Proof.
  intros H. unfold elapsedTicks, PRICE_INTERVAL_MS.
  assert ((t1 - loaded) / 10000 <= (t2 - loaded) / 10000)%Z
    by (apply Z.div_le_mono; lia).
  lia.
Qed.





End PriceFacts.

(** *** Claims about the price model *)

Module PriceModelFacts.
Import Api IPODetailPage Scenario PriceFacts.




(** The first mock listing after three firings: 119.97569444444446,
    where exact arithmetic would give [120 - 3 * 70 / 8640]. *)
Example price_of_first_mock_after_three_firings :
  priceAfter mockIPO1 3 == 1055317368737337 # 8796093022208
  /\ ~ priceAfter mockIPO1 3 == 120 - 3 * (70 / 8640).
Proof.
  split; [vm_compute; reflexivity | vm_compute; discriminate].
Qed.







(** Twenty-four hours after it was received, the scenario auction
    shows 75.00000000002237, which is above its [minPrice] of 75. *)
Example price_of_scenario_after_a_day :
  priceAt degenerateAuction 0 86400000 == 2638827906663187 # 35184372088832.
Proof. vm_compute. reflexivity. Qed.

End PriceModelFacts.

(** ** The bid panel *)

Module BidFacts.
Import Api IPODetailPage Scenario.

Lemma IPOStatus_eqb_refl (s : IPOStatus) : IPOStatus_eqb s s = true.
Proof. destruct s; reflexivity. Qed.

Lemma Qeq_bool_same (q : Q) : Qeq_bool q q = true.
Proof. apply Qeq_bool_iff. reflexivity. Qed.

Lemma IPOListing_eqb_refl (l : IPOListing) : IPOListing_eqb l l = true.
Proof.
  unfold IPOListing_eqb.
  rewrite !String.eqb_refl, !Z.eqb_refl, !Qeq_bool_same, IPOStatus_eqb_refl.
  reflexivity.
Qed.

Lemma IPOData_eqb_refl (d : IPOData) : IPOData_eqb d d = true.
Proof.
  destruct d; simpl; [apply IPOListing_eqb_refl | apply String.eqb_refl].
Qed.

Section Host.

Variable parseFloat : string -> option Q.
Variable parseInt : string -> option Z.
Variable numberToString : Q -> string.

Local Abbreviation handleBid := (handleBid parseFloat parseInt).
Local Abbreviation step := (step parseFloat parseInt numberToString).
Local Abbreviation run := (run parseFloat parseInt numberToString).

Lemma run_cons (st : PageState) (e : Event) (evs : list Event) :
  run st (e :: evs) = run (step st e) evs.
Proof. reflexivity. Qed.

(** [handleBid] touches neither the data nor the price. *)
Lemma runHandleBid_frame (st : PageState) :
  let st' := runHandleBid parseFloat parseInt st in
  data st' = data st /\ ipoId st' = ipoId st
  /\ currentPrice st' = currentPrice st.
Proof.
  unfold runHandleBid. destruct (handleBid st); simpl; auto.
Qed.

(** A query result that is deeply equal to the data of the page leaves
    the page as it is. *)
Lemma onQueryData_same (st : PageState) (r : option IPOListing) :
  sameData (data st) (queryFn r (ipoId st)) = true ->
  onQueryData numberToString st r = st.
Proof.
  intros H. unfold onQueryData.
  destruct (String.eqb (ipoId st) ""); [reflexivity|].
  rewrite H. reflexivity.
Qed.

Lemma onQueryData_ipoId (st : PageState) (r : option IPOListing) :
  ipoId (onQueryData numberToString st r) = ipoId st.
Proof.
  unfold onQueryData.
  destruct (String.eqb (ipoId st) ""); [reflexivity|].
  destruct (sameData (data st) (queryFn r (ipoId st))); reflexivity.
Qed.

(** Only query data changes the data of the page. *)
Lemma step_data (st : PageState) (e : Event) :
  isQueryData e = false ->
  data (step st e) = data st /\ ipoId (step st e) = ipoId st.
Proof.
  destruct e; simpl; intros H; try discriminate; auto.
  - unfold onPriceInterval.
    destruct (data st) as [[l|m]|] eqn:E; simpl; rewrite ?E; auto.
    destruct (currentPrice st); simpl; rewrite ?E; auto.
  - destruct (bidButtonDisabled st); auto.
    destruct (runHandleBid_frame st) as (H1 & H2 & _). auto.
  - unfold bidMutationSettled. destruct (bidPending st); auto.
Qed.

Lemma step_ipoId (st : PageState) (e : Event) :
  ipoId (step st e) = ipoId st.
Proof.
  destruct (isQueryData e) eqn:E.
  - destruct e; try discriminate. apply onQueryData_ipoId.
  - apply step_data, E.
Qed.

(** One event that does not change the data: only a firing of the
    interval changes the price. *)
Lemma step_unchanged (st : PageState) (e : Event) (l : IPOListing) (p : Q) :
  data st = Some (Listing l) ->
  currentPrice st = Some p ->
  dataUnchanged (ipoId st) (Listing l) [e] = true ->
  data (step st e) = Some (Listing l)
  /\ ipoId (step st e) = ipoId st
  /\ currentPrice (step st e)
     = Some (if isPriceInterval e then tickIfActive l p else p).
Proof.
  intros Hl Hp Hq.
  destruct (isQueryData e) eqn:Eq.
  - destruct e as [r| | | | | |c]; try discriminate.
    assert (Hst : step st (QueryData r) = st).
    { simpl. apply onQueryData_same. rewrite Hl.
      simpl in Hq. rewrite andb_true_r in Hq. exact Hq. }
    rewrite Hst. auto.
  - destruct (step_data st e Eq) as [H1 H2].
    split; [congruence|]. split; [exact H2|].
    destruct e as [r| | | | | |c]; try discriminate; simpl; try exact Hp.
    + unfold onPriceInterval. rewrite Hl, Hp. reflexivity.
    + destruct (bidButtonDisabled st); [exact Hp|].
      destruct (runHandleBid_frame st) as (_ & _ & H3). rewrite H3. exact Hp.
    + unfold bidMutationSettled. destruct (bidPending st); exact Hp.
Qed.

(** While the data stays the same, the price is the countdown of the
    listing from the price the page had. *)
Lemma run_unchanged (evs : list Event) (st : PageState)
      (l : IPOListing) (p : Q) :
  data st = Some (Listing l) ->
  currentPrice st = Some p ->
  dataUnchanged (ipoId st) (Listing l) evs = true ->
  data (run st evs) = Some (Listing l)
  /\ currentPrice (run st evs)
     = Some (Nat.iter (firings evs) (tickIfActive l) p).
Proof.
  revert st p. induction evs as [|e evs IH]; intros st p Hl Hp Hq.
  - split; assumption.
  - assert (He : dataUnchanged (ipoId st) (Listing l) [e] = true
                 /\ dataUnchanged (ipoId st) (Listing l) evs = true).
    { unfold dataUnchanged in *. simpl in *.
      apply andb_true_iff in Hq. destruct Hq as [H1 H2].
      rewrite H1. auto. }
    destruct He as [He Hevs].
    destruct (step_unchanged st e l p Hl Hp He) as (H1 & H2 & H3).
    rewrite run_cons.
    rewrite <- H2 in Hevs.
    destruct (IH (step st e) _ H1 H3 Hevs) as [G1 G2].
    split; [exact G1|]. rewrite G2. f_equal.
    unfold firings. simpl filter.
    destruct (isPriceInterval e); simpl List.length.
    + symmetry. apply Nat.iter_succ_r.
    + reflexivity.
Qed.

(** A query result that differs from the data of the page replaces it
    and sets the price anew. *)
Lemma onQueryData_changed (st : PageState) (r : option IPOListing)
      (d : IPOData) :
  ipoId st <> ""%string ->
  queryFn r (ipoId st) = d ->
  sameData (data st) d = false ->
  data (onQueryData numberToString st r) = Some d
  /\ currentPrice (onQueryData numberToString st r) = loadedPrice d.
Proof.
  intros Hid Hd Hs. unfold onQueryData.
  destruct (String.eqb_spec (ipoId st) ""); [contradiction|].
  rewrite Hd, Hs. split; reflexivity.
Qed.

Lemma mock_supply (pid : string) (l : IPOListing) :
  queryFn None pid = Listing l ->
  (0 <= availableTokens l <= totalTokens l)%Z.
Proof.
  unfold queryFn, mockIPOs.
  destruct (String.eqb pid "1"); [intros [= <-]; simpl; lia|].
  destruct (String.eqb pid "2"); [intros [= <-]; simpl; lia|].
  destruct (String.eqb pid "3"); [intros [= <-]; simpl; lia|].
  destruct (inheritedMember pid); [discriminate|].
  intros [= <-]; simpl; lia.
Qed.

Lemma run_offline (evs : list Event) (st : PageState) :
  apiUnavailable evs = true ->
  data st = Some (queryFn None (ipoId st)) ->
  data (run st evs) = Some (queryFn None (ipoId st)).
Proof.
  revert st. induction evs as [|e evs IH]; intros st Hoff Hl.
  - exact Hl.
  - simpl in Hoff. apply andb_true_iff in Hoff. destruct Hoff as [He Hoff].
    rewrite run_cons, <- (step_ipoId st e). apply IH; [exact Hoff|].
    rewrite (step_ipoId st e).
    destruct (isQueryData e) eqn:Eq.
    + destruct e as [[r|]| | | | | |]; try discriminate.
      simpl. rewrite onQueryData_same; [exact Hl|].
      rewrite Hl. apply IPOData_eqb_refl.
    + destruct (step_data st e Eq) as [H _]. congruence.
Qed.

(** C2 (amended): with the API unavailable the data of the page is what
    the mock lookup gives for the route id after every sequence of page
    events; where that is a listing, [0 <= availableTokens <=
    totalTokens], and accepted bids change neither [availableTokens]
    nor the status; an accepted bid is handed to [bidMutation] and,
    once the mutation settles, the success toast is shown, with the
    data left as it was. *)
Theorem bids_leave_listing_unchanged (st : PageState) (evs : list Event) :
  apiUnavailable evs = true ->
  data st = Some (queryFn None (ipoId st)) ->
  (data (run st evs) = Some (queryFn None (ipoId st))
   /\ (forall l : IPOListing,
         queryFn None (ipoId st) = Listing l ->
         ipo (run st evs) = Some l
         /\ (0 <= availableTokens l <= totalTokens l)%Z))
  /\ (forall d : BidData,
        bidButtonDisabled st = false ->
        handleBid st = Submitted d ->
        let st' := run st [ClickPlaceBid; MutationSettled] in
        mutations st' = mutations st ++ [d]
        /\ toasts st' = toasts st ++ [toastBidPlaced]
        /\ data st' = data st).
Proof.
  intros Hoff Hl. split; [split|].
  - apply run_offline; assumption.
  - intros l El. split; [|apply (mock_supply _ _ El)].
    unfold ipo. rewrite (run_offline evs st Hoff Hl), El. reflexivity.
  - intros d Hbtn Hd. unfold IPODetailPage.run. simpl fold_left.
    rewrite Hbtn. unfold runHandleBid. rewrite Hd.
    unfold bidMutationSettled. simpl. auto.
Qed.

(** C3 (amended): with a connected wallet, [handleBid] answers
    ["Invalid Bid"] exactly when the bid price is [NaN] or below
    [ipo.minPrice || 0]; the live price plays no part. *)
Theorem invalid_bid_iff (st : PageState) :
  isWalletConnected st = true ->
  handleBid st = InvalidBid <->
  (parseFloat (bidAmount st) = None
   \/ exists p, parseFloat (bidAmount st) = Some p
                /\ p < minBidPrice (ipo st)).
Proof.
  intros Hw. unfold IPODetailPage.handleBid. rewrite Hw. simpl.
  destruct (parseFloat (bidAmount st)) as [p|].
  - destruct (Qltb p (minBidPrice (ipo st))) eqn:E.
    + split; [|reflexivity]. intros _. right. exists p.
      split; [reflexivity | apply Qltb_lt, E].
    + apply Qltb_ge in E. split.
      * destruct (parseInt (tokenQuantity st)) as [q|];
          [destruct (q <? 1)%Z|]; discriminate.
      * intros [H|(p' & Hp' & Hlt)]; [discriminate|].
        injection Hp' as <-. lra.
  - split; auto.
Qed.

(** With a connected wallet and a bid price that passed the price check,
    the quantity check of [handleBid] is [isNaN(quantity) || quantity < 1]
    and nothing else. *)
Lemma invalid_quantity_iff (st : PageState) (p : Q) :
  isWalletConnected st = true ->
  parseFloat (bidAmount st) = Some p ->
  minBidPrice (ipo st) <= p ->
  handleBid st = InvalidQuantity <->
  (parseInt (tokenQuantity st) = None
   \/ exists q, parseInt (tokenQuantity st) = Some q /\ (q < 1)%Z).
Proof.
  intros Hw Hp Hmin. unfold IPODetailPage.handleBid.
  rewrite Hw, Hp. simpl.
  apply Qltb_ge in Hmin. rewrite Hmin.
  destruct (parseInt (tokenQuantity st)) as [q|].
  - destruct (Z.ltb_spec q 1).
    + split; [|reflexivity]. intros _. right. exists q. auto.
    + split; [discriminate|].
      intros [H'|(q' & Hq' & Hlt)]; [discriminate|].
      injection Hq' as <-. lia.
  - split; auto.
Qed.

(** C6 (amended): with a connected wallet and a bid price that passed
    the price check, [handleBid] answers ["Invalid Quantity"] if the
    quantity is [NaN] or at most 0. *)
Theorem invalid_quantity_rejected (st : PageState) (p : Q) :
  isWalletConnected st = true ->
  parseFloat (bidAmount st) = Some p ->
  minBidPrice (ipo st) <= p ->
  (parseInt (tokenQuantity st) = None
   \/ exists q, parseInt (tokenQuantity st) = Some q /\ (q <= 0)%Z) ->
  handleBid st = InvalidQuantity.
Proof.
  intros Hw Hp Hmin Hq.
  apply (invalid_quantity_iff st p Hw Hp Hmin).
  destruct Hq as [Hnan|(q & Hq & Hle)]; [left; exact Hnan|].
  right. exists q. split; [exact Hq | lia].
Qed.

(** C4 (amended): while the data object of the page stays the same, the
    price never rises.  For a page that holds a listing with
    [minPrice <= maxPrice] and a price [p] at or above [minPrice]
    ([minPrice] and [p] doubles), after every sequence of events in which
    each query result is deeply equal to that listing the price is at most
    [p], and it is again a double at or above [minPrice]. *)
Theorem price_monotone
  (st : PageState) (l : IPOListing) (p : Q) (evs : list Event) :
  data st = Some (Listing l) ->
  currentPrice st = Some p ->
  minPrice l <= maxPrice l ->
  Double.isDouble (minPrice l) ->
  Double.isDouble p ->
  minPrice l <= p ->
  dataUnchanged (ipoId st) (Listing l) evs = true ->
  exists p' : Q,
    currentPrice (run st evs) = Some p'
    /\ p' <= p
    /\ minPrice l <= p'
    /\ Double.isDouble p'.
Proof.
  intros Hl Hp Hrange Hmin Hd Hlo Hq.
  destruct (run_unchanged evs st l p Hl Hp Hq) as [_ Hprice].
  exists (Nat.iter (firings evs) (tickIfActive l) p).
  destruct (PriceFacts.countdown_inv l Hmin p (firings evs) Hd Hlo) as [I1 I2].
  repeat split; try assumption.
  apply (PriceFacts.countdown_mono l Hrange Hmin p 0 (firings evs) Hd Hlo).
  lia.
Qed.

(** C7 (amended): the price in the page state is determined by the
    listing object that the page received last and by the number of
    firings of the price interval since then; query results that are
    deeply equal to that listing, input changes, bid clicks, settled
    mutations and changes of the wallet leave it alone.  The listing
    has [minPrice <= maxPrice], and [maxPrice - minPrice] does not
    overflow, so that no subtraction of the countdown yields an
    infinity. *)
Theorem price_determined_by_firings
  (st : PageState) (r : option IPOListing) (l : IPOListing)
  (evs : list Event) :
  ipoId st <> ""%string ->
  queryFn r (ipoId st) = Listing l ->
  sameData (data st) (Listing l) = false ->
  dataUnchanged (ipoId st) (Listing l) evs = true ->
  minPrice l <= maxPrice l ->
  Double.finite (maxPrice l - minPrice l) ->
  currentPrice (run (onQueryData numberToString st r) evs)
  = Some (priceAfter l (firings evs)).
Proof.
  intros Hid Hq Hs Hevs _ _.
  destruct (onQueryData_changed st r (Listing l) Hid Hq Hs) as [H1 H2].
  rewrite <- (onQueryData_ipoId st r) in Hevs.
  destruct (run_unchanged evs _ l (initialPrice l) H1 H2 Hevs) as [_ H].
  exact H.
Qed.

End Host.

(** C2 (as stated, refuted): a bid for 10 tokens of the first mock
    listing is accepted, the success toast is shown and the listing is
    refetched, and [availableTokens] is 75000 as before. *)
Lemma bid_does_not_decrement :
  let st0 := pageWith mockIPO1 "120" "10" in
  let st1 := run parseFloatNumeral parseIntNumeral integerToString st0
                 [ClickPlaceBid; MutationSettled; QueryData None] in
  handleBid parseFloatNumeral parseIntNumeral st0
  = Submitted (mkBid (inject_Z 120) 10)
  /\ toasts st1 = [toastBidPlaced]
  /\ option_map availableTokens (ipo st0) = Some 75000%Z
  /\ option_map availableTokens (ipo st1) = Some 75000%Z
  /\ option_map availableTokens (ipo st1) <> Some (75000 - 10)%Z
  /\ option_map availableTokens (ipo st1) <> Some (100000 - 10)%Z.
Proof.
  vm_compute. repeat split; discriminate.
Qed.

Lemma bids_leave_listing_unchanged_witness :
  let st0 := pageWith mockIPO1 "120" "10" in
  let evs := [ClickPlaceBid; MutationSettled; QueryData None;
              ChangeTokenQuantity "75000"; ClickPlaceBid; MutationSettled] in
  data (run parseFloatNumeral parseIntNumeral integerToString st0 evs)
  = Some (Listing mockIPO1).
Proof.
  intros st0 evs.
  exact (proj1 (proj1 (bids_leave_listing_unchanged
                         parseFloatNumeral parseIntNumeral integerToString
                         st0 evs eq_refl eq_refl))).
Defined.

(** The route id ["constructor"] names a member that [mockIPOs]
    inherits: with the API unavailable the data of the page is that
    member and not a listing, the price is [undefined], the bid amount
    reads ["undefined"] and there is no active status, so that the bid
    button stays disabled. *)
Example inherited_member_as_listing :
  let st := run parseFloatNumeral parseIntNumeral integerToString
                (initialPage "constructor" true) [QueryData None] in
  data st = Some (Inherited "constructor")
  /\ ipo st = None
  /\ currentPrice st = None
  /\ bidAmount st = "undefined"%string
  /\ bidButtonDisabled st = true.
Proof. vm_compute. repeat split. Qed.

(** C3 (as stated, refuted): on the scenario auction at [t = 0] the
    live price is 150 and a bid of 100 is below it, yet [handleBid]
    submits the bid. *)
Lemma bid_below_live_price_accepted :
  let st := pageWith specAuction "100" "1" in
  status specAuction = active
  /\ currentPrice st = Some 150
  /\ parseFloatNumeral (bidAmount st) = Some (inject_Z 100)
  /\ inject_Z 100 < 150
  /\ handleBid parseFloatNumeral parseIntNumeral st
     = Submitted (mkBid (inject_Z 100) 1)
  /\ handleBid parseFloatNumeral parseIntNumeral st <> InvalidBid.
Proof.
  vm_compute. repeat split; discriminate.
Qed.

Lemma invalid_bid_iff_witness :
  let st := pageWith specAuction "70" "1" in
  handleBid parseFloatNumeral parseIntNumeral st = InvalidBid <->
  (parseFloatNumeral (bidAmount st) = None
   \/ exists p, parseFloatNumeral (bidAmount st) = Some p
                /\ p < minBidPrice (ipo st)).
Proof.
  intros st.
  apply (invalid_bid_iff parseFloatNumeral parseIntNumeral st).
  reflexivity.
Defined.

(** C6 (as stated, refuted): a quantity of 0 with a bid price below the
    minimum is answered with ["Invalid Bid"], not ["Invalid Quantity"],
    because the price is checked first; and a bid for 80000 tokens of
    the first mock listing, which has 75000 available, is submitted. *)
Lemma bid_quantity_not_checked_as_stated :
  let st0 := pageWith mockIPO1 "10" "0" in
  let st := pageWith mockIPO1 "120" "80000" in
  (parseIntNumeral (tokenQuantity st0) = Some 0%Z
   /\ handleBid parseFloatNumeral parseIntNumeral st0 = InvalidBid
   /\ handleBid parseFloatNumeral parseIntNumeral st0 <> InvalidQuantity)
  /\ (option_map availableTokens (ipo st) = Some 75000%Z
      /\ parseIntNumeral (tokenQuantity st) = Some 80000%Z
      /\ (75000 < 80000)%Z
      /\ handleBid parseFloatNumeral parseIntNumeral st
         = Submitted (mkBid (inject_Z 120) 80000)
      /\ handleBid parseFloatNumeral parseIntNumeral st <> InvalidQuantity).
Proof.
  vm_compute. repeat split; discriminate.
Qed.

Lemma invalid_quantity_rejected_witness :
  handleBid parseFloatNumeral parseIntNumeral (pageWith mockIPO1 "120" "0")
  = InvalidQuantity.
Proof.
  apply (invalid_quantity_rejected parseFloatNumeral parseIntNumeral
           (pageWith mockIPO1 "120" "0") (inject_Z 120)).
  - reflexivity.
  - reflexivity.
  - vm_compute. discriminate.
  - right. exists 0%Z. split; [reflexivity | lia].
Defined.

(** C4 (as stated, refuted): the price can rise.  The scenario auction
    as a listing whose [currentPrice] is 50, below its [minPrice] of 75,
    shows 50 at its start time and 75 ten seconds later, inside
    [[startTime, endTime]]; and the first mock listing, shown at
    119.99189814814815 after one firing, is shown at 130 once a refetch
    returns the listing with that [currentPrice]. *)
Lemma price_can_rise :
  ((startTime lowListing <= 0 < 10000)%Z
   /\ (10000 <= endTime lowListing)%Z
   /\ priceAt lowListing 0 0 == 50
   /\ priceAt lowListing 0 10000 == 75
   /\ ~ priceAt lowListing 0 10000 <= priceAt lowListing 0 0)
  /\ (let run := run parseFloatNumeral parseIntNumeral integerToString in
      let st1 := run (initialPage "1" true) [QueryData None; PriceInterval] in
      let st2 := run st1 [QueryData (Some raisedListing)] in
      option_map Qred (currentPrice st1)
      = Some (1055459898022419 # 8796093022208)
      /\ currentPrice st2 = Some 130
      /\ (1055459898022419 # 8796093022208) < 130).
Proof.
  split.
  - split; [vm_compute; split; [discriminate | reflexivity]|].
    split; [vm_compute; discriminate|].
    split; [vm_compute; reflexivity|]. split; [vm_compute; reflexivity|].
    intros H. vm_compute in H. apply H. reflexivity.
  - vm_compute. repeat split.
Qed.

Lemma price_monotone_witness :
  exists p' : Q,
    currentPrice
      (run parseFloatNumeral parseIntNumeral integerToString
           (pageWith mockIPO1 "120" "1")
           [PriceInterval; QueryData None; ClickPlaceBid; PriceInterval;
            WalletChanged false; MutationSettled; PriceInterval])
    = Some p'
    /\ p' <= 120
    /\ minPrice mockIPO1 <= p'
    /\ Double.isDouble p'.
Proof.
  apply (price_monotone parseFloatNumeral parseIntNumeral integerToString
           (pageWith mockIPO1 "120" "1") mockIPO1 120).
  - reflexivity.
  - reflexivity.
  - vm_compute. discriminate.
  - vm_compute. reflexivity.
  - vm_compute. reflexivity.
  - vm_compute. discriminate.
  - reflexivity.
Defined.

(** C7 (as stated, refuted): the price is not a function of the auction
    and the time alone, and computing it updates state.  Two pages show
    different prices (149.56597222222285 and 150) for the scenario
    auction at the same instant when they received it at different
    times, and a firing of the interval changes the [currentPrice]
    cell. *)
Lemma price_depends_on_load_time :
  priceAt specAuction 0 500000 == 657798102311825 # 4398046511104
  /\ priceAt specAuction 500000 500000 == 150
  /\ ~ priceAt specAuction 0 500000 == priceAt specAuction 500000 500000
  /\ currentPrice (onPriceInterval (pageWith specAuction "150" "1"))
     <> currentPrice (pageWith specAuction "150" "1").
Proof.
  split; [vm_compute; reflexivity|]. split; [vm_compute; reflexivity|].
  split; vm_compute; discriminate.
Qed.

Lemma price_determined_by_firings_witness :
  currentPrice
    (run parseFloatNumeral parseIntNumeral integerToString
         (onQueryData integerToString (initialPage "1" true) None)
         [PriceInterval; ChangeTokenQuantity "10"; ClickPlaceBid;
          QueryData None; PriceInterval; MutationSettled;
          WalletChanged false; PriceInterval])
  = Some (priceAfter mockIPO1 3).
Proof.
  apply (price_determined_by_firings
           parseFloatNumeral parseIntNumeral integerToString
           (initialPage "1" true) None mockIPO1
           [PriceInterval; ChangeTokenQuantity "10"; ClickPlaceBid;
            QueryData None; PriceInterval; MutationSettled;
            WalletChanged false; PriceInterval]).
  - discriminate.
  - reflexivity.
  - reflexivity.
  - reflexivity.
  - vm_compute. discriminate.
  - vm_compute. discriminate.
Defined.

End BidFacts.
(** ** Decimal numerals of the host *)

Module JsFacts.
Import Js.

Local Open Scope N_scope.

(** Enumerate the ten values of a digit [d] bounded by [H]. *)
Ltac digit_cases d H :=
  assert (d = 0 \/ d = 1 \/ d = 2 \/ d = 3 \/ d = 4 \/ d = 5 \/ d = 6
          \/ d = 7 \/ d = 8 \/ d = 9) as
    [->|[->|[->|[->|[->|[->|[->|[->|[->| ->]]]]]]]]] by lia; clear H.

Lemma digitVal_digitChar (d : N) : d < 10 -> digitVal (digitChar d) = Some d.
Proof. intros H. digit_cases d H; reflexivity. Qed.

Lemma isDigit_plain (c : ascii) :
  isDigit c ->
  Ascii.eqb c "," = false /\ Ascii.eqb c "." = false
  /\ Ascii.eqb c "-" = false /\ Ascii.eqb c "+" = false.
Proof.
  intros (d & H & ->). digit_cases d H; repeat split; reflexivity.
Qed.

Lemma isDigit_val (c : ascii) :
  isDigit c -> exists d, d < 10 /\ digitVal c = Some d.
Proof.
  intros (d & H & ->). exists d. split; [exact H|].
  apply digitVal_digitChar, H.
Qed.

Lemma digitsLE_lt10 (fuel : nat) (n : N) :
  Forall (fun d => d < 10) (digitsLE fuel n).
Proof.
  revert n. induction fuel as [|f IH]; intros n; simpl.
  - constructor.
  - destruct (N.eqb_spec n 0); constructor.
    + apply N.mod_lt. lia.
    + apply IH.
Qed.

Lemma digitsLE_value (fuel : nat) (n : N) :
  n < 2 ^ N.of_nat fuel -> valueLE (digitsLE fuel n) = n.
Proof.
  revert n. induction fuel as [|f IH]; intros n Hn.
  - simpl in *. lia.
  - cbn [digitsLE]. destruct (N.eqb_spec n 0) as [->|Hnz]; [reflexivity|].
    cbn [valueLE]. rewrite IH.
    + pose proof (N.div_mod n 10). lia.
    + rewrite Nat2N.inj_succ, N.pow_succ_r' in Hn.
      apply N.Div0.div_lt_upper_bound. lia.
Qed.

Lemma digitsOf_value (n : N) : valueLE (digitsOf n) = n.
Proof.
  unfold digitsOf. apply digitsLE_value.
  destruct (N.eqb_spec n 0) as [->|Hnz]; [reflexivity|].
  rewrite Nat2N.inj_succ, N2Nat.id.
  apply N.log2_spec. lia.
Qed.


Lemma parseDigits_app (a b : list ascii) (acc : N) :
  parseDigits acc (a ++ b)
  = match parseDigits acc a with
    | Some x => parseDigits x b
    | None => None
    end.
Proof.
  revert acc. induction a as [|c a IH]; intros acc; simpl.
  - reflexivity.
  - destruct (digitVal c); [apply IH | reflexivity].
Qed.

Lemma parseDigits_rev_digits (l : list N) (acc : N) :
  Forall (fun d => d < 10) l ->
  parseDigits acc (rev (map digitChar l))
  = Some (acc * 10 ^ N.of_nat (List.length l) + valueLE l).
Proof.
  intros Hl. revert acc. induction Hl as [|d r Hd Hr IH]; intros acc.
  - simpl. f_equal. lia.
  - simpl map. simpl rev. rewrite parseDigits_app, IH.
    cbn [parseDigits]. rewrite (digitVal_digitChar d Hd).
    f_equal. simpl List.length. rewrite Nat2N.inj_succ, N.pow_succ_r'.
    cbn [valueLE]. lia.
Qed.

Lemma numeral_digits (n : N) : Forall isDigit (numeral n).
Proof.
  unfold numeral. destruct (N.eqb_spec n 0).
  - constructor; [|constructor]. exists 0. split; [lia | reflexivity].
  - apply Forall_rev, Forall_map.
    eapply Forall_impl; [|apply digitsLE_lt10].
    intros d Hd. exists d. auto.
Qed.


Lemma parseDigits_numeral (n : N) : parseDigits 0 (numeral n) = Some n.
Proof.
  unfold numeral. destruct (N.eqb_spec n 0) as [->|Hn]; [reflexivity|].
  rewrite parseDigits_rev_digits by apply digitsLE_lt10.
  rewrite digitsOf_value. f_equal.
Qed.

(** [BigInt] on an unsigned digit string is [parseDigits]. *)
Lemma BigInt_digits (l : list ascii) :
  Forall isDigit l ->
  BigInt l = option_map Z.of_N (parseDigits 0 l).
Proof.
  intros Hl. destruct Hl as [|c r Hc Hr]; [reflexivity|].
  unfold BigInt. destruct (isDigit_plain c Hc) as (_ & _ & Hm & Hp).
  rewrite Hm, Hp. reflexivity.
Qed.


Lemma parseDigits_zeros (k : nat) (l : list ascii) :
  parseDigits 0 (repeat "0"%char k ++ l) = parseDigits 0 l.
Proof.
  induction k as [|k IH]; [reflexivity|]. simpl repeat.
  change (parseDigits 0 (("0"%char :: repeat "0"%char k) ++ l))
    with (parseDigits 0 (repeat "0"%char k ++ l)).
  exact IH.
Qed.

Lemma padStart_digits (k : nat) (l : list ascii) :
  Forall isDigit l -> Forall isDigit (padStart k "0" l).
Proof.
  intros Hl. unfold padStart. apply Forall_app. split; [|exact Hl].
  apply Forall_forall. intros c Hc. apply repeat_spec in Hc. subst c.
  exists 0. split; [lia | reflexivity].
Qed.



(** *** Grouping *)




Lemma toString_nonneg (z : Z) :
  (0 <= z)%Z -> toString z = numeral (Z.abs_N z).
Proof.
  intros Hz. unfold toString.
  destruct (Z.ltb_spec z 0) as [Hneg|_]; [lia | reflexivity].
Qed.

(** *** Splitting *)

Lemma split_plain (l : list ascii) :
  Forall (fun c => Ascii.eqb c "." = false) l -> split "." l = [l].
Proof.
  induction 1 as [|c r Hc Hr IH]; [reflexivity|].
  simpl. rewrite Hc, IH. reflexivity.
Qed.

Lemma split_at_dot (a b : list ascii) :
  Forall (fun c => Ascii.eqb c "." = false) a ->
  split "." (a ++ "."%char :: b) = a :: split "." b.
Proof.
  induction 1 as [|c r Hc Hr IH]; [reflexivity|].
  simpl. rewrite Hc. simpl in IH. rewrite IH. reflexivity.
Qed.

End JsFacts.

(** ** The Qubic SDK *)

Module SDKFacts.
Import Js JsFacts QubicSDK Scenario.

Local Open Scope Z_scope.

Lemma requireWallet_connected (st : SDKState) (w : QubicWallet) :
  wallet st = Some w -> requireWallet st = (Ok w, st).
Proof. intros Hw. unfold requireWallet. rewrite Hw. reflexivity. Qed.

Lemma sendTransaction_run (h : Host) (st : SDKState) (w : QubicWallet)
      (to_ : string) (amount_ : Z) :
  wallet st = Some w ->
  let tx := mkTx (generateTxHash h) (address w) to_ amount_
                 (getCurrentTick h) pending (dateNow h) in
  sendTransaction h to_ amount_ st
  = (Ok tx, mkSDK (Some w) (emitted st ++ [transactionSent tx]) (posted st)).
Proof.
  intros Hw tx. unfold sendTransaction, bind.
  rewrite (requireWallet_connected st w Hw).
  unfold emit, ret. rewrite Hw. reflexivity.
Qed.

Lemma callContract_run (h : Host) (st : SDKState) (w : QubicWallet)
      (call : SmartContractCall) :
  wallet st = Some w ->
  let p := mkPayload (contractAddress call) (method call) (params call)
                     (valueString (value call)) (address w) in
  callContract h call st
  = (match fetchContractCall h p with
     | inl body => Ok body
     | inr err => Throw err
     end,
     mkSDK (Some w) (emitted st) (posted st ++ [p])).
Proof.
  intros Hw p. unfold callContract, bind.
  rewrite (requireWallet_connected st w Hw).
  unfold post. fold p. rewrite Hw.
  destruct (fetchContractCall h p); reflexivity.
Qed.

(** One run of [placeBid] for a connected wallet. *)
Lemma placeBid_run (h : Host) (st : SDKState) (w : QubicWallet)
      (auctionId : string) (amount_ maxPrice : Z) :
  wallet st = Some w ->
  let tx := mkTx (generateTxHash h) (address w)
                 DUTCH_AUCTION_CONTRACT_ADDRESS (maxPrice * amount_)
                 (getCurrentTick h) pending (dateNow h) in
  let p := mkPayload DUTCH_AUCTION_CONTRACT_ADDRESS "placeBid"
                     [auctionId; str (toString amount_);
                      str (toString maxPrice)] "0" (address w) in
  placeBid h auctionId amount_ maxPrice st
  = (match fetchContractCall h p with
     | inl _ => Ok tx
     | inr err => Throw err
     end,
     mkSDK (Some w) (emitted st ++ [transactionSent tx]) (posted st ++ [p])).
Proof.
  intros Hw tx p. unfold placeBid, bind.
  rewrite (requireWallet_connected st w Hw).
  rewrite (sendTransaction_run h st w _ _ Hw). fold tx.
  set (st1 := mkSDK (Some w) (emitted st ++ [transactionSent tx]) (posted st)).
  rewrite (callContract_run h st1 w _ (eq_refl (Some w))).
  cbn [contractAddress method params value valueString emitted posted st1].
  fold p. destruct (fetchContractCall h p); reflexivity.
Qed.

(** C9: with a wallet connected, [placeBid] sends exactly one
    transaction, to the auction contract, whose amount is
    [maxPrice * amount], whatever the network answers; the call returns
    that transaction unless the contract call fails. *)
Theorem placeBid_charges_maxPrice (h : Host) (st : SDKState)
        (w : QubicWallet) (auctionId : string) (amount_ maxPrice : Z) :
  wallet st = Some w ->
  exists tx : QubicTransaction,
    emitted (snd (placeBid h auctionId amount_ maxPrice st))
    = emitted st ++ [transactionSent tx]
    /\ amount tx = maxPrice * amount_
    /\ to tx = DUTCH_AUCTION_CONTRACT_ADDRESS
    /\ from tx = address w
    /\ (fst (placeBid h auctionId amount_ maxPrice st) = Ok tx
        \/ exists err,
             fst (placeBid h auctionId amount_ maxPrice st) = Throw err).
Proof.
  intros Hw. rewrite (placeBid_run h st w auctionId amount_ maxPrice Hw).
  eexists. cbn [fst snd emitted]. split; [reflexivity|].
  cbn [amount to from]. repeat split.
  destruct (fetchContractCall h _); [left; reflexivity | right; eauto].
Qed.

Lemma placeBid_charges_maxPrice_witness :
  exists tx : QubicTransaction,
    emitted (snd (placeBid demoHost "auction-1" 10 120 demoSDK))
    = emitted demoSDK ++ [transactionSent tx]
    /\ amount tx = 120 * 10
    /\ to tx = DUTCH_AUCTION_CONTRACT_ADDRESS
    /\ from tx = address demoWallet
    /\ (fst (placeBid demoHost "auction-1" 10 120 demoSDK) = Ok tx
        \/ exists err,
             fst (placeBid demoHost "auction-1" 10 120 demoSDK)
             = Throw err).
Proof.
  apply (placeBid_charges_maxPrice demoHost demoSDK demoWallet
                                   "auction-1" 10 120).
  reflexivity.
Defined.

(** Without a wallet nothing is sent. *)
Lemma placeBid_not_connected (h : Host) (st : SDKState)
      (auctionId : string) (amount_ maxPrice : Z) :
  wallet st = None ->
  placeBid h auctionId amount_ maxPrice st
  = (Throw "Wallet not connected", st).
Proof.
  intros Hw. unfold placeBid, bind, requireWallet. rewrite Hw. reflexivity.
Qed.

(** *** Balances *)

Lemma chars_str (l : list ascii) : chars (str l) = l.
Proof. apply list_ascii_of_string_of_list_ascii. Qed.


Example formatBalance_example :
  formatBalance toLocaleString_enUS exactPow10 1234567 2
  = Some "12,345.67"%string
  /\ formatBalance toLocaleString_enUS exactPow10 1234567 0
     = Some "1,234,567"%string
  /\ formatBalance toLocaleString_enUS exactPow10 5 3 = Some "0.005"%string
  /\ formatBalance toLocaleString_deDE exactPow10 (-1234005) 3
     = Some "-1.234.0-5"%string.
Proof. repeat split; reflexivity. Qed.




End SDKFacts.

(** ** More of the Qubic SDK *)

Module SDKOpsFacts.
Import Js JsFacts JsString QubicSDK QubicSDKOps Scenario SDKFacts.

Local Open Scope Z_scope.

Lemma requireWallet_missing (st : SDKState) :
  wallet st = None -> requireWallet st = (Throw "Wallet not connected", st).
Proof. intros Hw. unfold requireWallet. rewrite Hw. reflexivity. Qed.

(** X1: with no wallet, [sendTransaction], [callContract], [placeBid]
    and [tradeRWAToken] all throw ["Wallet not connected"] and leave the
    instance as it was: nothing is emitted and nothing is posted. *)
Theorem no_wallet_no_effect (h : Host) (st : SDKState)
        (to_ auctionId tokenId : string) (call : SmartContractCall)
        (amount_ price : Z) (isBuy : bool) :
  wallet st = None ->
  sendTransaction h to_ amount_ st = (Throw "Wallet not connected", st)
  /\ callContract h call st = (Throw "Wallet not connected", st)
  /\ placeBid h auctionId amount_ price st
     = (Throw "Wallet not connected", st)
  /\ tradeRWAToken h tokenId amount_ price isBuy st
     = (Throw "Wallet not connected", st).
Proof.
  intros Hw.
  assert (Hs : forall t a,
             sendTransaction h t a st = (Throw "Wallet not connected", st)).
  { intros t a. unfold sendTransaction, bind.
    rewrite (requireWallet_missing st Hw). reflexivity. }
  repeat split.
  - apply Hs.
  - unfold callContract, bind. rewrite (requireWallet_missing st Hw).
    reflexivity.
  - unfold placeBid, bind. rewrite (requireWallet_missing st Hw).
    reflexivity.
  - unfold tradeRWAToken, bind. rewrite Hs. reflexivity.
Qed.

Lemma no_wallet_no_effect_witness :
  sendTransaction demoHost "X" 5 (mkSDK None [] [])
  = (Throw "Wallet not connected", mkSDK None [] [])
  /\ callContract demoHost (mkCall "C" "m" [] None) (mkSDK None [] [])
     = (Throw "Wallet not connected", mkSDK None [] [])
  /\ placeBid demoHost "auction-1" 10 120 (mkSDK None [] [])
     = (Throw "Wallet not connected", mkSDK None [] [])
  /\ tradeRWAToken demoHost "token-1" 10 120 true (mkSDK None [] [])
     = (Throw "Wallet not connected", mkSDK None [] []).
Proof.
  apply (no_wallet_no_effect demoHost (mkSDK None [] []) "X" "auction-1"
           "token-1" (mkCall "C" "m" [] None) 5 120 true).
  reflexivity.
Defined.

(** X2: [placeBid] is not atomic.  When the contract call fails, the
    call throws that error, yet the transaction of [maxPrice * amount]
    has already been sent and the request has been posted. *)
Theorem placeBid_failure_after_send (h : Host) (st : SDKState)
        (w : QubicWallet) (auctionId err : string)
        (amount_ maxPrice : Z) :
  wallet st = Some w ->
  (forall p, fetchContractCall h p = inr err) ->
  exists tx p,
    placeBid h auctionId amount_ maxPrice st
    = (Throw err,
       mkSDK (Some w) (emitted st ++ [transactionSent tx])
             (posted st ++ [p]))
    /\ amount tx = maxPrice * amount_
    /\ payloadParams p = [auctionId; str (toString amount_);
                          str (toString maxPrice)]
    /\ payloadValue p = "0"%string.
Proof.
  intros Hw Hfail.
  rewrite (placeBid_run h st w auctionId amount_ maxPrice Hw).
  rewrite Hfail. eexists. eexists. split; [reflexivity|].
  repeat split.
Qed.

Lemma placeBid_failure_after_send_witness :
  exists tx p,
    placeBid (mkHost "ab12" 7 1000 (fun _ => inr "Failed to fetch"%string))
             "auction-1" 10 120 demoSDK
    = (Throw "Failed to fetch",
       mkSDK (Some demoWallet) (emitted demoSDK ++ [transactionSent tx])
             (posted demoSDK ++ [p]))
    /\ amount tx = 120 * 10
    /\ payloadParams p = ["auction-1"; str (toString 10);
                          str (toString 120)]%string
    /\ payloadValue p = "0"%string.
Proof.
  apply (placeBid_failure_after_send
           (mkHost "ab12" 7 1000 (fun _ => inr "Failed to fetch"%string))
           demoSDK demoWallet "auction-1" "Failed to fetch" 10 120).
  - reflexivity.
  - intros p. reflexivity.
Defined.

Lemma tradeRWAToken_run (h : Host) (st : SDKState) (w : QubicWallet)
      (tokenId : string) (amount_ price : Z) (isBuy : bool) :
  wallet st = Some w ->
  let tx := mkTx (generateTxHash h) (address w)
                 RWA_TRADING_CONTRACT_ADDRESS
                 (if isBuy then price * amount_ else 0)
                 (getCurrentTick h) pending (dateNow h) in
  let p := mkPayload RWA_TRADING_CONTRACT_ADDRESS
                     (if isBuy then "buyToken" else "sellToken")
                     [tokenId; str (toString amount_);
                      str (toString price)] "0" (address w) in
  tradeRWAToken h tokenId amount_ price isBuy st
  = (match fetchContractCall h p with
     | inl _ => Ok tx
     | inr err => Throw err
     end,
     mkSDK (Some w) (emitted st ++ [transactionSent tx]) (posted st ++ [p])).
Proof.
  intros Hw tx p. unfold tradeRWAToken, bind.
  rewrite (sendTransaction_run h st w _ _ Hw). fold tx.
  set (st1 := mkSDK (Some w) (emitted st ++ [transactionSent tx]) (posted st)).
  rewrite (callContract_run h st1 w _ (eq_refl (Some w))).
  cbn [contractAddress method params value valueString emitted posted st1].
  fold p. destruct (fetchContractCall h p); reflexivity.
Qed.

(** X3: [tradeRWAToken] sends one transaction to the trading contract:
    a buy order transfers [price * amount], a sell order transfers
    nothing; the contract method posted is [buyToken] or [sellToken]
    accordingly. *)
Theorem tradeRWAToken_transfer (h : Host) (st : SDKState) (w : QubicWallet)
        (tokenId : string) (amount_ price : Z) (isBuy : bool) :
  wallet st = Some w ->
  exists tx p,
    emitted (snd (tradeRWAToken h tokenId amount_ price isBuy st))
    = emitted st ++ [transactionSent tx]
    /\ posted (snd (tradeRWAToken h tokenId amount_ price isBuy st))
       = posted st ++ [p]
    /\ to tx = RWA_TRADING_CONTRACT_ADDRESS
    /\ amount tx = (if isBuy then price * amount_ else 0)
    /\ payloadMethod p = (if isBuy then "buyToken" else "sellToken")%string.
Proof.
  intros Hw.
  rewrite (tradeRWAToken_run h st w tokenId amount_ price isBuy Hw).
  eexists. eexists. cbn [snd emitted posted].
  split; [reflexivity|]. split; [reflexivity|]. repeat split.
Qed.

Lemma tradeRWAToken_transfer_witness :
  exists tx p,
    emitted (snd (tradeRWAToken demoHost "token-1" 10 120 false demoSDK))
    = emitted demoSDK ++ [transactionSent tx]
    /\ posted (snd (tradeRWAToken demoHost "token-1" 10 120 false demoSDK))
       = posted demoSDK ++ [p]
    /\ to tx = RWA_TRADING_CONTRACT_ADDRESS
    /\ amount tx = (if false then 120 * 10 else 0)
    /\ payloadMethod p = (if false then "buyToken" else "sellToken")%string.
Proof.
  apply (tradeRWAToken_transfer demoHost demoSDK demoWallet
                                "token-1" 10 120 false).
  reflexivity.
Defined.

(** X4: after [disconnect] the instance reports not connected, what it
    has emitted and posted is kept, a second [disconnect] changes
    nothing, and [placeBid] throws without sending. *)
Theorem disconnect_then_placeBid (h : Host) (st : SDKState)
        (auctionId : string) (amount_ maxPrice : Z) :
  let st' := snd (disconnect st) in
  isConnected st' = false
  /\ emitted st' = emitted st
  /\ posted st' = posted st
  /\ snd (disconnect st') = st'
  /\ placeBid h auctionId amount_ maxPrice st'
     = (Throw "Wallet not connected", st').
Proof.
  assert (Hw : wallet (snd (disconnect st)) = None).
  { unfold disconnect. destruct (wallet st) eqn:E; [reflexivity | exact E]. }
  cbv zeta. repeat split.
  - unfold isConnected. rewrite Hw. reflexivity.
  - unfold disconnect. destruct (wallet st); reflexivity.
  - unfold disconnect. destruct (wallet st); reflexivity.
  - unfold disconnect at 1. rewrite Hw. reflexivity.
  - unfold placeBid, bind.
    rewrite (requireWallet_missing _ Hw). reflexivity.
Qed.

(** *** shortenAddress *)

Lemma slice_prefix (l : list ascii) (n : nat) :
  slice 0 (Some (Z.of_nat n)) l = firstn n l.
Proof.
  unfold slice, sliceIndex.
  destruct (Z.ltb_spec 0 0) as [H|_]; [lia|].
  destruct (Z.ltb_spec (Z.of_nat n) 0) as [H|_]; [lia|].
  replace (Z.to_nat (Z.min 0 (Z.of_nat (List.length l)))) with 0%nat by lia.
  replace (Z.to_nat (Z.min (Z.of_nat n) (Z.of_nat (List.length l))
                     - Z.min 0 (Z.of_nat (List.length l))))
    with (Nat.min n (List.length l)) by lia.
  simpl skipn.
  destruct (Nat.le_gt_cases n (List.length l)) as [Hle|Hgt].
  - rewrite Nat.min_l by exact Hle. reflexivity.
  - rewrite Nat.min_r by lia. rewrite firstn_all.
    symmetry. apply firstn_all2. lia.
Qed.

Lemma slice_suffix (l : list ascii) (n : nat) :
  (0 < n)%nat ->
  slice (- Z.of_nat n) None l = skipn (List.length l - n) l.
Proof.
  intros Hn. unfold slice, sliceIndex.
  destruct (Z.ltb_spec (- Z.of_nat n) 0) as [_|H]; [|lia].
  replace (Z.to_nat (Z.max (Z.of_nat (List.length l) + - Z.of_nat n) 0))
    with (List.length l - n)%nat by lia.
  apply firstn_all2. rewrite length_skipn. lia.
Qed.

Lemma slice_minus_zero (l : list ascii) : slice (- 0) None l = l.
Proof.
  unfold slice, sliceIndex. change (- 0) with 0.
  destruct (Z.ltb_spec 0 0) as [H|_]; [lia|].
  replace (Z.to_nat (Z.min 0 (Z.of_nat (List.length l)))) with 0%nat by lia.
  replace (Z.to_nat (Z.of_nat (List.length l)
                     - Z.min 0 (Z.of_nat (List.length l))))
    with (List.length l) by lia.
  apply firstn_all.
Qed.

(** X5: for [1 <= chars <= length], [shortenAddress] keeps the first and
    the last [chars] characters around three dots, so that the result
    has [2 * chars + 3] characters. *)
Theorem shortenAddress_keeps_ends (address_ : string) (n : nat) :
  (0 < n <= List.length (chars address_))%nat ->
  chars (shortenAddress address_ (Z.of_nat n))
  = firstn n (chars address_) ++ chars "..."
    ++ skipn (List.length (chars address_) - n) (chars address_)
  /\ List.length (chars (shortenAddress address_ (Z.of_nat n)))
     = (2 * n + 3)%nat.
Proof.
  intros [Hpos Hle]. unfold shortenAddress. rewrite chars_str.
  rewrite slice_prefix, slice_suffix by exact Hpos.
  split; [reflexivity|].
  rewrite !length_app, length_firstn, length_skipn. simpl List.length. lia.
Qed.

Lemma shortenAddress_keeps_ends_witness :
  chars (shortenAddress "ABCDEFGHIJKLMNOP" (Z.of_nat 3))
  = firstn 3 (chars "ABCDEFGHIJKLMNOP") ++ chars "..."
    ++ skipn (List.length (chars "ABCDEFGHIJKLMNOP") - 3)
             (chars "ABCDEFGHIJKLMNOP")
  /\ List.length (chars (shortenAddress "ABCDEFGHIJKLMNOP" (Z.of_nat 3)))
     = (2 * 3 + 3)%nat.
Proof.
  apply (shortenAddress_keeps_ends "ABCDEFGHIJKLMNOP" 3).
  simpl. lia.
Defined.

(** X6: [shortenAddress] does not shorten in two cases: with
    [chars = 0] the result is the three dots followed by the whole
    address (because [slice(-0)] is [slice(0)]), and an address of at
    most [chars] characters comes out as the address, three dots and
    the address again. *)
Theorem shortenAddress_whole_address (address_ : string) (n : nat) :
  (n = 0 \/ List.length (chars address_) <= n)%nat ->
  chars (shortenAddress address_ (Z.of_nat n))
  = firstn n (chars address_) ++ chars "..." ++ chars address_.
Proof.
  intros Hn. unfold shortenAddress. rewrite chars_str, slice_prefix.
  f_equal. f_equal.
  destruct n as [|n].
  - apply slice_minus_zero.
  - destruct Hn as [Hn|Hn]; [discriminate|].
    rewrite slice_suffix by lia.
    replace (List.length (chars address_) - S n)%nat with 0%nat by lia.
    reflexivity.
Qed.

Lemma shortenAddress_whole_address_witness :
  chars (shortenAddress "ABCDEF" (Z.of_nat 0))
  = firstn 0 (chars "ABCDEF") ++ chars "..." ++ chars "ABCDEF".
Proof.
  apply (shortenAddress_whole_address "ABCDEF" 0). left. reflexivity.
Defined.

(** *** The event system *)

Lemma setAdd_In (cb : nat) (s : list nat) : In cb (setAdd cb s).
Proof.
  unfold setAdd. destruct (existsb (Nat.eqb cb) s) eqn:E.
  - apply existsb_exists in E. destruct E as (x & Hx & Heq).
    apply Nat.eqb_eq in Heq. subst x. exact Hx.
  - apply in_or_app. right. left. reflexivity.
Qed.

Lemma setAdd_NoDup (cb : nat) (s : list nat) :
  NoDup s -> NoDup (setAdd cb s).
Proof.
  intros Hs. unfold setAdd. destruct (existsb (Nat.eqb cb) s) eqn:E.
  - exact Hs.
  - apply NoDup_app; [exact Hs | repeat constructor; intros [] |].
    intros x Hx [Heq|[]]. subst x.
    assert (existsb (Nat.eqb cb) s = true); [|congruence].
    apply existsb_exists. exists cb. split; [exact Hx|apply Nat.eqb_refl].
Qed.

Lemma setDelete_In (cb c : nat) (s : list nat) :
  In c (setDelete cb s) <-> In c s /\ c <> cb.
Proof.
  unfold setDelete. rewrite filter_In, negb_true_iff, Nat.eqb_neq.
  intuition congruence.
Qed.

Lemma registerAll_snoc (rs : list Registration) (r : Registration) :
  registerAll (rs ++ [r]) = register (registerAll rs) r.
Proof. unfold registerAll. rewrite fold_left_app. reflexivity. Qed.

Lemma registerAll_NoDup (rs : list Registration) (e : string) :
  NoDup (called e (registerAll rs)).
Proof.
  induction rs as [|r rs IH] using rev_ind.
  - constructor.
  - rewrite registerAll_snoc. unfold called in *.
    destruct r as [e' cb|e' cb]; simpl; unfold on, off;
      destruct (String.eqb e e'); try exact IH.
    + apply setAdd_NoDup, IH.
    + apply NoDup_filter, IH.
Qed.

(** X7: however often and in whatever order callbacks were registered
    and removed before, after [on(event, cb)] an [emit(event)] calls
    [cb] exactly once, and no callback is ever called twice by one
    [emit]. *)
Theorem on_calls_once (rs : list Registration) (e : string) (cb : nat) :
  count_occ Nat.eq_dec (called e (registerAll (rs ++ [On e cb]))) cb = 1%nat
  /\ forall e' : string,
       NoDup (called e' (registerAll (rs ++ [On e cb]))).
Proof.
  split; [|intros e'; apply registerAll_NoDup].
  apply NoDup_count_occ'; [apply registerAll_NoDup|].
  rewrite registerAll_snoc. unfold called. simpl. unfold on.
  rewrite String.eqb_refl. apply setAdd_In.
Qed.

(** X8: after [off(event, cb)] an [emit(event)] no longer calls [cb];
    the other callbacks of the event and the callbacks of every other
    event are called as before. *)
Theorem off_removes_only_cb (rs : list Registration) (e : string)
        (cb : nat) :
  ~ In cb (called e (registerAll (rs ++ [Off e cb])))
  /\ (forall c : nat,
        c <> cb ->
        (In c (called e (registerAll (rs ++ [Off e cb])))
         <-> In c (called e (registerAll rs))))
  /\ (forall e' : string,
        e' <> e ->
        called e' (registerAll (rs ++ [Off e cb]))
        = called e' (registerAll rs)).
Proof.
  rewrite registerAll_snoc. unfold called. simpl. unfold off.
  rewrite String.eqb_refl. split; [|split].
  - intros Hin. apply setDelete_In in Hin. destruct Hin as [_ Hin].
    congruence.
  - intros c Hc. rewrite setDelete_In. tauto.
  - intros e' Hne. apply String.eqb_neq in Hne. rewrite Hne. reflexivity.
Qed.

End SDKOpsFacts.


(** ** More of the format utilities *)

Module FormatFacts.
Import Js JsFacts JsString QubicSDK Scenario SDKFacts.

Local Open Scope N_scope.

Lemma digitsLE_length (fuel : nat) (n : N) (d : nat) :
  n < 10 ^ N.of_nat d -> (List.length (digitsLE fuel n) <= d)%nat.
Proof.
  revert n d. induction fuel as [|f IH]; intros n d Hn; [simpl; lia|].
  cbn [digitsLE]. destruct (N.eqb_spec n 0) as [->|Hnz]; [simpl; lia|].
  destruct d as [|d]; [simpl in Hn; lia|].
  cbn [List.length]. apply le_n_S, IH.
  rewrite Nat2N.inj_succ, N.pow_succ_r' in Hn.
  apply N.Div0.div_lt_upper_bound. lia.
Qed.

Lemma numeral_length (n : N) (d : nat) :
  (0 < d)%nat -> n < 10 ^ N.of_nat d -> (List.length (numeral n) <= d)%nat.
Proof.
  intros Hd Hn. unfold numeral. destruct (N.eqb_spec n 0); [simpl; lia|].
  rewrite length_rev, length_map. apply digitsLE_length, Hn.
Qed.

Lemma parseDigits_digits (l : list ascii) :
  Forall isDigit l ->
  forall acc, parseDigits acc l
              = Some (acc * 10 ^ N.of_nat (List.length l) + numValue l).
Proof.
  intros Hl.
  assert (Hacc : exists v, forall acc,
               parseDigits acc l
               = Some (acc * 10 ^ N.of_nat (List.length l) + v)).
  { induction Hl as [|c r Hc Hr [v IH]].
    - exists 0. intros acc. simpl. f_equal. lia.
    - destruct (isDigit_val c Hc) as (d & Hd & Hv).
      exists (d * 10 ^ N.of_nat (List.length r) + v). intros acc.
      cbn [parseDigits]. rewrite Hv, IH. f_equal.
      cbn [List.length]. rewrite Nat2N.inj_succ, N.pow_succ_r'. lia. }
  destruct Hacc as [v Hv]. intros acc.
  unfold numValue. rewrite (Hv 0), Hv. f_equal; lia.
Qed.

Lemma numValue_digits (l : list ascii) :
  Forall isDigit l -> parseDigits 0 l = Some (numValue l).
Proof.
  intros Hl. rewrite (parseDigits_digits l Hl 0). f_equal; lia.
Qed.

Lemma zeros_digits (j : nat) : Forall isDigit (repeat "0"%char j).
Proof.
  apply Forall_forall. intros c Hc. apply repeat_spec in Hc. subst c.
  exists 0. split; [lia | reflexivity].
Qed.

Lemma numValue_zeros (j : nat) : numValue (repeat "0"%char j) = 0.
Proof.
  unfold numValue. rewrite <- (app_nil_r (repeat "0"%char j)).
  rewrite parseDigits_zeros. reflexivity.
Qed.

Lemma parseDigits_padEnd (l : list ascii) (d : nat) :
  Forall isDigit l ->
  parseDigits 0 (padEnd d "0" l)
  = Some (numValue l * 10 ^ N.of_nat (d - List.length l)).
Proof.
  intros Hl. unfold padEnd. rewrite parseDigits_app, (numValue_digits l Hl).
  rewrite (parseDigits_digits _ (zeros_digits _)).
  rewrite repeat_length, numValue_zeros. f_equal; lia.
Qed.

Lemma removeCommas_digits (l : list ascii) :
  Forall isDigit l -> removeCommas l = l.
Proof.
  induction 1 as [|c r Hc Hr IH]; [reflexivity|].
  unfold removeCommas. simpl filter.
  destruct (isDigit_plain c Hc) as (Hcomma & _). rewrite Hcomma. simpl.
  f_equal. exact IH.
Qed.

Lemma digits_plain (l : list ascii) :
  Forall isDigit l -> Forall (fun c => Ascii.eqb c "." = false) l.
Proof.
  intros Hl. eapply Forall_impl; [|exact Hl].
  intros c Hc. apply (isDigit_plain c Hc).
Qed.

Lemma BigInt_whole (w : list ascii) :
  Forall isDigit w ->
  BigInt (removeCommas w) = Some (Z.of_N (numValue w)).
Proof.
  intros Hw. rewrite (removeCommas_digits w Hw), (BigInt_digits w Hw).
  rewrite (numValue_digits w Hw). reflexivity.
Qed.

Local Open Scope Z_scope.

(** What [parseAmount] makes of [whole.fraction]. *)
Lemma parseAmount_parts (BigInt_pow10 : nat -> Z) (w f : list ascii)
      (decimals : nat) :
  Forall isDigit w -> Forall isDigit f -> f <> [] -> decimals <> 0%nat ->
  parseAmount BigInt_pow10 (str (w ++ "."%char :: f)) decimals
  = Some (Z.of_N (numValue w) * BigInt_pow10 decimals
          + Z.of_N (numValue f)
            * 10 ^ Z.of_nat (decimals - List.length f)).
Proof.
  intros Hw Hf Hne Hd. unfold parseAmount.
  destruct (Nat.eqb_spec decimals 0) as [H0|_]; [contradiction|].
  rewrite chars_str.
  rewrite (split_at_dot w f (digits_plain w Hw)).
  rewrite (split_plain f (digits_plain f Hf)).
  cbn [nth nth_error]. rewrite (BigInt_whole w Hw).
  destruct f as [|c r] eqn:Ef; [contradiction|].
  cbn [truthy]. rewrite <- Ef in *.
  assert (Hpad : Forall isDigit (padEnd decimals "0" f)).
  { unfold padEnd. apply Forall_app. split; [exact Hf | apply zeros_digits]. }
  rewrite (BigInt_digits _ Hpad), (parseDigits_padEnd f decimals Hf).
  cbn [option_map]. f_equal. f_equal.
  rewrite N2Z.inj_mul, N2Z.inj_pow, nat_N_Z. reflexivity.
Qed.

(** X9: a fraction with fewer digits than [decimals] is padded on the
    right: [parseAmount("w.f", d)] is [w * 10^d + f * 10^(d - |f|)]
    ([BigInt(10 ** d)] standing for the first power). *)
Theorem parseAmount_short_fraction (BigInt_pow10 : nat -> Z)
        (w f : list ascii) (decimals : nat) :
  Forall isDigit w -> Forall isDigit f -> f <> [] ->
  (List.length f <= decimals)%nat ->
  parseAmount BigInt_pow10 (str (w ++ "."%char :: f)) decimals
  = Some (Z.of_N (numValue w) * BigInt_pow10 decimals
          + Z.of_N (numValue f)
            * 10 ^ (Z.of_nat decimals - Z.of_nat (List.length f))).
Proof.
  intros Hw Hf Hne Hle.
  rewrite (parseAmount_parts BigInt_pow10 w f decimals Hw Hf Hne).
  - rewrite Nat2Z.inj_sub by exact Hle. reflexivity.
  - destruct f; [contradiction | simpl in Hle; lia].
Qed.

Lemma parseAmount_short_fraction_witness :
  parseAmount exactPow10 (str (chars "12" ++ "."%char :: chars "5")) 3
  = Some (Z.of_N (numValue (chars "12")) * exactPow10 3
          + Z.of_N (numValue (chars "5"))
            * 10 ^ (Z.of_nat 3 - Z.of_nat (List.length (chars "5")))).
Proof.
  apply (parseAmount_short_fraction exactPow10 (chars "12") (chars "5") 3).
  - repeat constructor; [exists 1%N | exists 2%N]; split;
      [lia | reflexivity | lia | reflexivity].
  - repeat constructor. exists 5%N. split; [lia | reflexivity].
  - discriminate.
  - simpl. lia.
Defined.

(** X10: a fraction with more digits than [decimals] is not cut: all of
    its digits are added to the scaled whole part, so the surplus
    digits carry into the whole part
    ([parseAmount("1.2345", 2)] is [100 + 2345]). *)
Theorem parseAmount_long_fraction (BigInt_pow10 : nat -> Z)
        (w f : list ascii) (decimals : nat) :
  Forall isDigit w -> Forall isDigit f ->
  (0 < decimals < List.length f)%nat ->
  parseAmount BigInt_pow10 (str (w ++ "."%char :: f)) decimals
  = Some (Z.of_N (numValue w) * BigInt_pow10 decimals
          + Z.of_N (numValue f)).
Proof.
  intros Hw Hf [Hd Hlt].
  rewrite (parseAmount_parts BigInt_pow10 w f decimals Hw Hf).
  - replace (decimals - List.length f)%nat with 0%nat by lia.
    change (10 ^ Z.of_nat 0) with 1. rewrite Z.mul_1_r. reflexivity.
  - destruct f; [simpl in Hlt; lia | discriminate].
  - lia.
Qed.

Lemma parseAmount_long_fraction_witness :
  parseAmount exactPow10 (str (chars "1" ++ "."%char :: chars "2345")) 2
  = Some (Z.of_N (numValue (chars "1")) * exactPow10 2
          + Z.of_N (numValue (chars "2345"))).
Proof.
  apply (parseAmount_long_fraction exactPow10 (chars "1") (chars "2345") 2).
  - repeat constructor. exists 1%N. split; [lia | reflexivity].
  - repeat constructor;
      [exists 2%N | exists 3%N | exists 4%N | exists 5%N]; split;
      solve [lia | reflexivity].
  - simpl. lia.
Defined.

(** X11: an amount without a fraction, with or without a trailing dot,
    is scaled by [BigInt(10 ** decimals)]; the empty string counts as
    zero. *)
Theorem parseAmount_no_fraction (BigInt_pow10 : nat -> Z)
        (w : list ascii) (decimals : nat) :
  Forall isDigit w -> decimals <> 0%nat ->
  parseAmount BigInt_pow10 (str w) decimals
  = Some (Z.of_N (numValue w) * BigInt_pow10 decimals)
  /\ parseAmount BigInt_pow10 (str (w ++ ["."%char])) decimals
     = Some (Z.of_N (numValue w) * BigInt_pow10 decimals).
Proof.
  intros Hw Hd. unfold parseAmount.
  destruct (Nat.eqb_spec decimals 0) as [H0|_]; [contradiction|].
  rewrite !chars_str.
  rewrite (split_plain w (digits_plain w Hw)).
  rewrite (split_at_dot w [] (digits_plain w Hw)).
  cbn [split nth nth_error truthy]. rewrite (BigInt_whole w Hw).
  split; f_equal; lia.
Qed.

Lemma parseAmount_no_fraction_witness :
  parseAmount exactPow10 (str (chars "12")) 3
  = Some (Z.of_N (numValue (chars "12")) * exactPow10 3)
  /\ parseAmount exactPow10 (str (chars "12" ++ ["."%char])) 3
     = Some (Z.of_N (numValue (chars "12")) * exactPow10 3).
Proof.
  apply (parseAmount_no_fraction exactPow10 (chars "12") 3).
  - repeat constructor; [exists 1%N | exists 2%N]; split;
      solve [lia | reflexivity].
  - discriminate.
Defined.

(** X12: [parseAmount] reads the text before the first dot and the text
    between the first and the second dot; whatever follows a second dot
    is ignored and not rejected. *)
Theorem parseAmount_ignores_second_dot (BigInt_pow10 : nat -> Z)
        (w f rest : list ascii) (decimals : nat) :
  Forall (fun c => Ascii.eqb c "." = false) w ->
  Forall (fun c => Ascii.eqb c "." = false) f ->
  decimals <> 0%nat ->
  parseAmount BigInt_pow10
              (str (w ++ "."%char :: f ++ "."%char :: rest)) decimals
  = parseAmount BigInt_pow10 (str (w ++ "."%char :: f)) decimals.
Proof.
  intros Hw Hf Hd. unfold parseAmount.
  destruct (Nat.eqb_spec decimals 0) as [H0|_]; [contradiction|].
  rewrite !chars_str.
  rewrite !(split_at_dot w _ Hw), (split_at_dot f rest Hf), (split_plain f Hf).
  reflexivity.
Qed.

Lemma parseAmount_ignores_second_dot_witness :
  parseAmount exactPow10
              (str (chars "1" ++ "."%char :: chars "2"
                    ++ "."%char :: chars "3,x")) 1
  = parseAmount exactPow10 (str (chars "1" ++ "."%char :: chars "2")) 1.
Proof.
  apply (parseAmount_ignores_second_dot exactPow10
           (chars "1") (chars "2") (chars "3,x") 1).
  - repeat constructor.
  - repeat constructor.
  - discriminate.
Defined.

(** X13: whatever the locale of the runtime, for a non-negative amount
    and an exact power the text that [formatBalance] puts after its dot
    has exactly [decimals] digits and denotes the remainder; the text
    before that dot is what [toLocaleString] gives for the quotient. *)
Theorem formatBalance_fraction_digits (toLocaleString : Z -> list ascii)
        (BigInt_pow10 : nat -> Z) (amount_ : Z) (decimals : nat) :
  0 <= amount_ ->
  (0 < decimals)%nat ->
  BigInt_pow10 decimals = 10 ^ Z.of_nat decimals ->
  exists f : list ascii,
    formatBalance toLocaleString BigInt_pow10 amount_ decimals
    = Some (str (toLocaleString (Z.quot amount_ (10 ^ Z.of_nat decimals))
                 ++ "."%char :: f))
    /\ List.length f = decimals
    /\ Forall isDigit f
    /\ Z.of_N (numValue f) = Z.rem amount_ (10 ^ Z.of_nat decimals).
Proof.
  intros Ha Hd Hpow. unfold formatBalance.
  destruct (Nat.eqb_spec decimals 0) as [H0|_]; [lia|].
  assert (Hpos : 0 < 10 ^ Z.of_nat decimals)
    by (apply Z.pow_pos_nonneg; lia).
  rewrite Hpow.
  destruct (Z.eqb_spec (10 ^ Z.of_nat decimals) 0) as [H0|_]; [lia|].
  set (whole := Z.quot amount_ (10 ^ Z.of_nat decimals)).
  set (fraction := Z.rem amount_ (10 ^ Z.of_nat decimals)).
  assert (Hwhole : 0 <= whole) by (apply Z.quot_pos; lia).
  assert (Hfrac : 0 <= fraction < 10 ^ Z.of_nat decimals)
    by (apply Z.rem_bound_pos; lia).
  eexists. split; [reflexivity|].
  rewrite toString_nonneg by lia.
  assert (Hlen : (List.length (numeral (Z.abs_N fraction)) <= decimals)%nat).
  { apply numeral_length; [exact Hd|].
    apply N2Z.inj_lt. rewrite N2Z.inj_pow, nat_N_Z, N2Z.inj_abs_N.
    change (Z.of_N 10) with 10. lia. }
  split; [|split].
  - unfold padStart. rewrite length_app, repeat_length. lia.
  - apply padStart_digits, numeral_digits.
  - unfold padStart, numValue.
    rewrite parseDigits_zeros, parseDigits_numeral.
    rewrite N2Z.inj_abs_N. lia.
Qed.

Lemma formatBalance_fraction_digits_witness :
  exists f : list ascii,
    formatBalance toLocaleString_deDE exactPow10 1234005 3
    = Some (str (toLocaleString_deDE (Z.quot 1234005 (10 ^ Z.of_nat 3))
                 ++ "."%char :: f))
    /\ List.length f = 3%nat
    /\ Forall isDigit f
    /\ Z.of_N (numValue f) = Z.rem 1234005 (10 ^ Z.of_nat 3).
Proof.
  apply (formatBalance_fraction_digits toLocaleString_deDE exactPow10
           1234005 3).
  - lia.
  - lia.
  - reflexivity.
Defined.

Lemma parseDigits_zeros_minus (k : nat) (l : list ascii) :
  parseDigits 0 (repeat "0"%char k ++ "-"%char :: l) = None.
Proof. rewrite parseDigits_zeros. reflexivity. Qed.

(** X14: the round trip fails for negative amounts.  When the amount is
    negative, its remainder is not zero and has at most [decimals - 2]
    digits, and what [toLocaleString] writes for the quotient holds no
    dot, [formatBalance] pads the signed remainder with zeros (as in
    ["-1.0-5"]) and [parseAmount] throws on the result. *)
Theorem parseAmount_formatBalance_negative (toLocaleString : Z -> list ascii)
        (BigInt_pow10 : nat -> Z) (amount_ : Z) (decimals : nat) :
  Forall (fun c => Ascii.eqb c "." = false)
         (toLocaleString (Z.quot amount_ (10 ^ Z.of_nat decimals))) ->
  amount_ < 0 ->
  BigInt_pow10 decimals = 10 ^ Z.of_nat decimals ->
  Z.rem amount_ (10 ^ Z.of_nat decimals) <> 0 ->
  (2 <= decimals)%nat ->
  - 10 ^ (Z.of_nat decimals - 2) < Z.rem amount_ (10 ^ Z.of_nat decimals) ->
  exists s : string,
    formatBalance toLocaleString BigInt_pow10 amount_ decimals = Some s
    /\ parseAmount BigInt_pow10 s decimals = None.
Proof.
  intros Hplainw Ha Hpow Hrem Hd Hsmall. unfold formatBalance, parseAmount.
  destruct (Nat.eqb_spec decimals 0) as [H0|_]; [lia|].
  assert (Hpos : 0 < 10 ^ Z.of_nat decimals)
    by (apply Z.pow_pos_nonneg; lia).
  rewrite Hpow.
  destruct (Z.eqb_spec (10 ^ Z.of_nat decimals) 0) as [H0|_]; [lia|].
  set (whole := Z.quot amount_ (10 ^ Z.of_nat decimals)).
  set (fraction := Z.rem amount_ (10 ^ Z.of_nat decimals)) in *.
  assert (Hneg : fraction < 0).
  { pose proof (Z.rem_nonpos amount_ (10 ^ Z.of_nat decimals)).
    fold fraction in H. lia. }
  eexists. split; [reflexivity|].
  rewrite chars_str, (split_at_dot _ _ Hplainw).
  unfold toString. destruct (Z.ltb_spec fraction 0) as [_|H]; [|lia].
  set (digits := numeral (Z.abs_N fraction)).
  assert (Hlen : (List.length digits <= decimals - 2)%nat).
  { apply numeral_length; [|].
    - destruct (Nat.eq_dec decimals 2) as [->|Hne]; [|lia].
      change (Z.of_nat 2 - 2) with 0 in Hsmall. simpl in Hsmall. lia.
    - apply N2Z.inj_lt. rewrite N2Z.inj_pow, nat_N_Z, N2Z.inj_abs_N.
      change (Z.of_N 10) with 10. rewrite Nat2Z.inj_sub by exact Hd.
      change (Z.of_nat 2) with 2. lia. }
  unfold padStart. cbn [List.length].
  destruct (decimals - S (List.length digits))%nat as [|k] eqn:Ek; [lia|].
  set (pad := repeat "0"%char (S k) ++ "-"%char :: digits).
  assert (Hplain : Forall (fun c => Ascii.eqb c "." = false) pad).
  { unfold pad. apply Forall_app. split.
    - apply digits_plain, zeros_digits.
    - constructor; [reflexivity|]. apply digits_plain, numeral_digits. }
  rewrite (split_plain pad Hplain). cbn [nth nth_error].
  destruct (BigInt (removeCommas (toLocaleString _))); [|reflexivity].
  assert (Hpadlen : List.length pad = decimals).
  { unfold pad. rewrite length_app, repeat_length. cbn [List.length]. lia. }
  assert (Htruthy : truthy (Some pad) = Some pad) by reflexivity.
  rewrite Htruthy. unfold padEnd. rewrite Hpadlen, Nat.sub_diag.
  cbn [repeat]. rewrite app_nil_r.
  assert (Hbig : BigInt pad = None).
  { unfold pad. cbn [repeat app]. unfold BigInt.
    change (Ascii.eqb "0" "-") with false.
    change (Ascii.eqb "0" "+") with false. cbv iota.
    change ("0"%char :: repeat "0"%char k ++ "-"%char :: digits)
      with (repeat "0"%char (S k) ++ "-"%char :: digits).
    rewrite parseDigits_zeros_minus. reflexivity. }
  rewrite Hbig. reflexivity.
Qed.

Lemma parseAmount_formatBalance_negative_witness :
  exists s : string,
    formatBalance toLocaleString_deDE exactPow10 (-1005) 3 = Some s
    /\ parseAmount exactPow10 s 3 = None.
Proof.
  apply (parseAmount_formatBalance_negative toLocaleString_deDE exactPow10
           (-1005) 3).
  - repeat constructor.
  - lia.
  - reflexivity.
  - vm_compute. discriminate.
  - lia.
  - vm_compute. reflexivity.
Defined.

End FormatFacts.


(** ** More of the IPO detail page *)

Module PageMoreFacts.
Import Api IPODetailPage IPODetailView Scenario.

(** X15: the countdown splits the time left, floored to whole seconds,
    into days, hours below 24, minutes below 60 and seconds below 60,
    none of them negative; once the end has passed all four are 0. *)
Theorem timeLeft_decomposition (endTime_ now : Z) :
  let t := calculateTimeLeft endTime_ now in
  (0 <= days t
   /\ 0 <= hours t < 24
   /\ 0 <= minutes t < 60
   /\ 0 <= seconds t < 60
   /\ days t * MS_DAY + hours t * MS_HOUR + minutes t * MS_MINUTE
      + seconds t * 1000
      = 1000 * (Z.max 0 (endTime_ - now) / 1000))%Z.
Proof.
  unfold calculateTimeLeft, MS_DAY, MS_HOUR, MS_MINUTE. cbn [days hours minutes seconds].
  change (1000 * 60 * 60 * 24)%Z with 86400000%Z.
  change (1000 * 60 * 60)%Z with 3600000%Z.
  change (1000 * 60)%Z with 60000%Z.
  set (diff := Z.max 0 (endTime_ - now)).
  assert (Hd : (0 <= diff)%Z) by (unfold diff; lia).
  rewrite !Z.rem_mod_nonneg by lia.
  generalize dependent diff. intros diff Hd.
  Z.div_mod_to_equations. lia.
Qed.

Local Open Scope Q_scope.

Section Progress.

Variable l : IPOListing.
Hypothesis Hlt : minPrice l < maxPrice l.
Hypothesis Hmin : Double.isDouble (minPrice l).
Hypothesis Hmax : Double.isDouble (maxPrice l).

Lemma span_pos : 0 < Double.sub (maxPrice l) (minPrice l).
Proof.
  unfold Double.sub. apply DoubleFacts.roundDouble_difference_pos; assumption.
Qed.

Lemma priceProgress_mono (a b : Q) :
  a <= b -> priceProgress l a <= priceProgress l b.
Proof.
  intros Hab. unfold priceProgress, Double.mul, Double.div.
  pose proof span_pos as Hs.
  set (D := Double.sub (maxPrice l) (minPrice l)) in *.
  assert (H1 : Double.sub a (minPrice l) <= Double.sub b (minPrice l))
    by (apply DoubleFacts.roundDouble_mono; lra).
  assert (H2 : Double.sub a (minPrice l) / D <= Double.sub b (minPrice l) / D).
  { apply Qmult_le_compat_r; [exact H1|].
    apply Qlt_le_weak, Qinv_lt_0_compat, Hs. }
  apply DoubleFacts.roundDouble_mono in H2.
  apply DoubleFacts.roundDouble_mono. lra.
Qed.

Lemma priceProgress_at_min : priceProgress l (minPrice l) == 0.
Proof.
  unfold priceProgress, Double.mul, Double.div.
  assert (E0 : Double.sub (minPrice l) (minPrice l) == 0)
    by (apply DoubleFacts.roundDouble_zero; ring).
  assert (E1 : Double.roundDouble
                 (Double.sub (minPrice l) (minPrice l)
                  / Double.sub (maxPrice l) (minPrice l)) == 0).
  { apply DoubleFacts.roundDouble_zero. rewrite E0. unfold Qdiv. ring. }
  apply DoubleFacts.roundDouble_zero. rewrite E1. ring.
Qed.

Lemma priceProgress_at_max : priceProgress l (maxPrice l) == 100.
Proof.
  unfold priceProgress, Double.mul, Double.div.
  pose proof span_pos as Hs.
  set (D := Double.sub (maxPrice l) (minPrice l)) in *.
  assert (E1 : Double.roundDouble (D / D) == 1).
  { assert (E : D / D == 1) by (field; lra).
    rewrite E. exact DoubleFacts.isDouble_1. }
  assert (E2 : Double.roundDouble (D / D) * 100 == 100) by (rewrite E1; ring).
  rewrite E2. exact DoubleFacts.isDouble_100.
Qed.

Lemma priceProgress_range (p : Q) :
  minPrice l <= p <= maxPrice l ->
  0 <= priceProgress l p <= 100.
Proof.
  intros [Hlo Hhi].
  pose proof (priceProgress_mono _ _ Hlo) as H1.
  pose proof (priceProgress_mono _ _ Hhi) as H2.
  rewrite priceProgress_at_min in H1. rewrite priceProgress_at_max in H2.
  split; assumption.
Qed.

End Progress.

Section Host.

Variable parseFloat : string -> option Q.
Variable parseInt : string -> option Z.
Variable numberToString : Q -> string.

Local Abbreviation handleBid := (handleBid parseFloat parseInt).
Local Abbreviation step := (step parseFloat parseInt numberToString).
Local Abbreviation run := (run parseFloat parseInt numberToString).

(** X16: while the data object of the page stays the same, the progress
    bar of the price stays between 0 and 100 per cent and never grows,
    for a listing with [minPrice < maxPrice] (both doubles, their
    difference not overflowing) and a price (a double) of the page
    within that range. *)
Theorem priceProgress_bounded
  (st : PageState) (l : IPOListing) (p : Q) (evs : list Event) :
  data st = Some (Listing l) ->
  currentPrice st = Some p ->
  minPrice l < maxPrice l ->
  Double.isDouble (minPrice l) ->
  Double.isDouble (maxPrice l) ->
  Double.finite (maxPrice l - minPrice l) ->
  Double.isDouble p ->
  minPrice l <= p <= maxPrice l ->
  dataUnchanged (ipoId st) (Listing l) evs = true ->
  exists p' : Q,
    currentPrice (run st evs) = Some p'
    /\ 0 <= priceProgress l p'
    /\ priceProgress l p' <= priceProgress l p
    /\ priceProgress l p <= 100.
Proof.
  intros Hl Hp Hlt Hmin Hmax _ Hd [Hlo Hhi] Hq.
  assert (Hrange : minPrice l <= maxPrice l) by lra.
  destruct (BidFacts.run_unchanged parseFloat parseInt numberToString
              evs st l p Hl Hp Hq) as [_ Hprice].
  exists (Nat.iter (firings evs) (tickIfActive l) p).
  destruct (PriceFacts.countdown_inv l Hmin p (firings evs) Hd Hlo)
    as [_ Hfloor].
  assert (Hmono : Nat.iter (firings evs) (tickIfActive l) p <= p).
  { apply (PriceFacts.countdown_mono l Hrange Hmin p 0 (firings evs) Hd Hlo).
    lia. }
  split; [exact Hprice|].
  split; [|split].
  - apply (priceProgress_range l Hlt Hmin Hmax). split; [exact Hfloor | lra].
  - apply (priceProgress_mono l Hlt Hmin Hmax), Hmono.
  - apply (priceProgress_range l Hlt Hmin Hmax). split; assumption.
Qed.

Lemma run_snoc (st : PageState) (evs : list Event) (e : Event) :
  run st (evs ++ [e]) = step (run st evs) e.
Proof. unfold IPODetailPage.run. rewrite fold_left_app. reflexivity. Qed.

Lemma handleBid_submitted (st : PageState) (d : BidData) :
  handleBid st = Submitted d ->
  isWalletConnected st = true
  /\ parseInt (tokenQuantity st) = Some (quantity d)
  /\ (1 <= quantity d)%Z
  /\ parseFloat (bidAmount st) = Some (price d)
  /\ minBidPrice (ipo st) <= price d.
Proof.
  unfold IPODetailPage.handleBid.
  destruct (isWalletConnected st); simpl; [|discriminate].
  destruct (parseFloat (bidAmount st)) as [p|]; [|discriminate].
  destruct (Qltb p (minBidPrice (ipo st))) eqn:Ep; [discriminate|].
  destruct (parseInt (tokenQuantity st)) as [q|]; [|discriminate].
  destruct (Z.ltb_spec q 1) as [Hq|Hq]; [discriminate|].
  intros Heq. injection Heq as <-. simpl.
  repeat split; auto. apply Qltb_ge, Ep.
Qed.

Lemma successToasts_toast (st : PageState) (t : Toast) :
  successToasts (toast st t)
  = (successToasts st + if isBidPlaced t then 1 else 0)%nat.
Proof.
  unfold successToasts, toast. simpl toasts.
  rewrite filter_app, length_app. simpl.
  destruct (isBidPlaced t); reflexivity.
Qed.

(** A query result and a firing of the interval touch neither the bids,
    nor the toasts, nor the wallet. *)
Lemma onQueryData_frame (st : PageState) (r : option IPOListing) :
  let st' := onQueryData numberToString st r in
  mutations st' = mutations st /\ toasts st' = toasts st
  /\ bidPending st' = bidPending st
  /\ isWalletConnected st' = isWalletConnected st
  /\ walletModalOpen st' = walletModalOpen st.
Proof.
  unfold onQueryData.
  destruct (String.eqb (ipoId st) ""); [repeat split|].
  destruct (sameData (data st) (queryFn r (ipoId st))); repeat split.
Qed.

Lemma onPriceInterval_frame (st : PageState) :
  let st' := onPriceInterval st in
  mutations st' = mutations st /\ toasts st' = toasts st
  /\ bidPending st' = bidPending st
  /\ isWalletConnected st' = isWalletConnected st
  /\ walletModalOpen st' = walletModalOpen st.
Proof.
  unfold onPriceInterval.
  destruct (data st) as [[l|m]|]; [|repeat split..].
  destruct (currentPrice st); repeat split.
Qed.

Lemma step_bidsAccounted (st : PageState) (e : Event) :
  bidsAccounted st -> bidsAccounted (step st e).
Proof.
  unfold bidsAccounted. intros Hst. destruct e; simpl.
  - destruct (onQueryData_frame st apiResult) as (H1 & H2 & H3 & _).
    unfold successToasts, inFlight in *. rewrite H1, H2, H3. exact Hst.
  - destruct (onPriceInterval_frame st) as (H1 & H2 & H3 & _).
    unfold successToasts, inFlight in *. rewrite H1, H2, H3. exact Hst.
  - exact Hst.
  - exact Hst.
  - destruct (bidButtonDisabled st) eqn:Eb; [exact Hst|].
    unfold bidButtonDisabled in Eb.
    apply orb_false_iff in Eb. destruct Eb as [_ Hpend].
    unfold runHandleBid.
    destruct (handleBid st).
    + exact Hst.
    + rewrite successToasts_toast. simpl. unfold inFlight in *. simpl.
      lia.
    + rewrite successToasts_toast. simpl. unfold inFlight in *. simpl.
      lia.
    + unfold mutate, successToasts, inFlight in *. simpl.
      rewrite length_app. rewrite Hpend in Hst. simpl. lia.
  - unfold bidMutationSettled. destruct (bidPending st) eqn:Ep; [|exact Hst].
    rewrite successToasts_toast. unfold inFlight in *.
    rewrite Ep in Hst. simpl. unfold successToasts in *. simpl. lia.
  - exact Hst.
Qed.

(** X17: at every moment the bids handed to [bidMutation] are the bids
    acknowledged by a success toast plus at most one bid in flight: the
    button is disabled while a bid is pending, and every settled bid is
    acknowledged once. *)
Theorem bids_acknowledged_once (pid : string) (connected : bool)
        (evs : list Event) :
  List.length (mutations (run (initialPage pid connected) evs))
  = (successToasts (run (initialPage pid connected) evs)
     + inFlight (run (initialPage pid connected) evs))%nat
  /\ (inFlight (run (initialPage pid connected) evs) <= 1)%nat.
Proof.
  split.
  - induction evs as [|e evs IH] using rev_ind; [reflexivity|].
    rewrite run_snoc. apply step_bidsAccounted. exact IH.
  - unfold inFlight. destruct (bidPending _); lia.
Qed.

Lemma step_submitted_valid (st : PageState) (e : Event) :
  Forall (fun d => (1 <= quantity d)%Z) (mutations st) ->
  Forall (fun d => (1 <= quantity d)%Z) (mutations (step st e)).
Proof.
  intros Hst. destruct e; simpl; try exact Hst.
  - destruct (onQueryData_frame st apiResult) as (H1 & _).
    rewrite H1. exact Hst.
  - destruct (onPriceInterval_frame st) as (H1 & _). rewrite H1. exact Hst.
  - destruct (bidButtonDisabled st); [exact Hst|].
    unfold runHandleBid. destruct (handleBid st) eqn:Eh; try exact Hst.
    simpl. apply Forall_app. split; [exact Hst|].
    constructor; [|constructor].
    apply (handleBid_submitted st d Eh).
  - unfold bidMutationSettled. destruct (bidPending st); exact Hst.
Qed.

(** X18: whatever the user types and clicks, every bid handed to
    [bidMutation] has a quantity of at least 1. *)
Theorem submitted_bids_have_quantity (pid : string) (connected : bool)
        (evs : list Event) :
  Forall (fun d => (1 <= quantity d)%Z)
         (mutations (run (initialPage pid connected) evs)).
Proof.
  induction evs as [|e evs IH] using rev_ind; [constructor|].
  rewrite run_snoc. apply step_submitted_valid. exact IH.
Qed.

Lemma step_disconnected (st : PageState) (e : Event) :
  isWalletConnected st = false ->
  staysDisconnected [e] = true ->
  isWalletConnected (step st e) = false
  /\ mutations (step st e) = mutations st
  /\ walletModalOpen (step st e) = walletModalOpen st.
Proof.
  intros Hw He. destruct e; simpl; auto.
  - destruct (onQueryData_frame st apiResult) as (H1 & _ & _ & H4 & H5).
    rewrite H1, H4, H5. auto.
  - destruct (onPriceInterval_frame st) as (H1 & _ & _ & H4 & H5).
    rewrite H1, H4, H5. auto.
  - unfold bidButtonDisabled. rewrite Hw. simpl. auto.
  - unfold bidMutationSettled. destruct (bidPending st); simpl; auto.
  - destruct connected; [discriminate | auto].
Qed.

(** X19: while the wallet stays disconnected the page submits no bid
    and the bid button does not open the wallet modal: the button is
    disabled, so neither the wallet branch of [handleBid] nor
    [bidMutation.mutate] is reached from it.  (The success toast of a
    bid that was pending when the wallet was disconnected is still
    shown.) *)
Theorem disconnected_page_submits_nothing
  (st : PageState) (evs : list Event) :
  isWalletConnected st = false ->
  staysDisconnected evs = true ->
  isWalletConnected (run st evs) = false
  /\ mutations (run st evs) = mutations st
  /\ walletModalOpen (run st evs) = walletModalOpen st.
Proof.
  intros Hw. induction evs as [|e evs IH] using rev_ind; intros Hs.
  - auto.
  - unfold staysDisconnected in *. rewrite forallb_app in Hs.
    apply andb_true_iff in Hs. destruct Hs as [Hs He].
    destruct (IH Hs) as (I1 & I2 & I3).
    rewrite run_snoc.
    destruct (step_disconnected _ e I1 He) as (H1 & H2 & H3).
    repeat split; congruence.
Qed.

End Host.

Lemma priceProgress_bounded_witness :
  exists p' : Q,
    currentPrice
      (run parseFloatNumeral parseIntNumeral integerToString
           (pageWith mockIPO1 "120" "1")
           [PriceInterval; QueryData None; PriceInterval])
    = Some p'
    /\ 0 <= priceProgress mockIPO1 p'
    /\ priceProgress mockIPO1 p' <= priceProgress mockIPO1 120
    /\ priceProgress mockIPO1 120 <= 100.
Proof.
  apply (priceProgress_bounded parseFloatNumeral parseIntNumeral
           integerToString (pageWith mockIPO1 "120" "1") mockIPO1 120).
  - reflexivity.
  - reflexivity.
  - vm_compute. reflexivity.
  - vm_compute. reflexivity.
  - vm_compute. reflexivity.
  - vm_compute. discriminate.
  - vm_compute. reflexivity.
  - split; vm_compute; discriminate.
  - reflexivity.
Defined.

(** A bid is pending when the wallet is disconnected: further clicks
    submit nothing, and the success toast of the pending bid is shown
    when it settles. *)
Lemma disconnected_page_submits_nothing_witness :
  let st := run parseFloatNumeral parseIntNumeral integerToString
                (pageWith mockIPO1 "120" "10")
                [ClickPlaceBid; WalletChanged false] in
  let evs := [ClickPlaceBid; MutationSettled; ClickPlaceBid; PriceInterval] in
  isWalletConnected
    (run parseFloatNumeral parseIntNumeral integerToString st evs) = false
  /\ mutations (run parseFloatNumeral parseIntNumeral integerToString st evs)
     = mutations st
  /\ walletModalOpen
       (run parseFloatNumeral parseIntNumeral integerToString st evs)
     = walletModalOpen st.
Proof.
  intros st evs.
  apply (disconnected_page_submits_nothing
           parseFloatNumeral parseIntNumeral integerToString st evs).
  - reflexivity.
  - reflexivity.
Defined.

Example toast_after_disconnect :
  let st := run parseFloatNumeral parseIntNumeral integerToString
                (pageWith mockIPO1 "120" "10")
                [ClickPlaceBid; WalletChanged false; MutationSettled] in
  isWalletConnected st = false /\ toasts st = [toastBidPlaced].
Proof. vm_compute. split; reflexivity. Qed.

End PageMoreFacts.

(** ** The user store *)

Module StoreFacts.
Import Store.

Lemma userRun_snoc (acts : list UserAction) (a : UserAction) :
  userRun (acts ++ [a]) = userStep (userRun acts) a.
Proof. unfold userRun. rewrite fold_left_app. reflexivity. Qed.

(** X20: after every sequence of store actions, a store that says the
    wallet is connected holds a wallet address; after
    [disconnectWallet] or [setWalletAddress(null)] the store is
    disconnected and holds none. *)
Theorem connected_store_has_address (acts : list UserAction) :
  isWalletConnected (userRun acts) = true ->
  exists a : string, walletAddress (userRun acts) = Some a.
Proof.
  induction acts as [|a acts IH] using rev_ind; [discriminate|].
  rewrite userRun_snoc. destruct a as [[s|]|s|]; simpl.
  - intros _. exists s. reflexivity.
  - discriminate.
  - intros _. exists s. reflexivity.
  - discriminate.
Qed.

Lemma connected_store_has_address_witness :
  exists a : string,
    walletAddress (userRun [connectWallet "ABC"; disconnectWallet;
                            setWalletAddress (Some "XYZ"%string)])
    = Some a.
Proof.
  apply (connected_store_has_address
           [connectWallet "ABC"; disconnectWallet;
            setWalletAddress (Some "XYZ"%string)]).
  reflexivity.
Defined.

End StoreFacts.

(** ** Cards *)

Module CardsFacts.
Import IPODetailView Cards.

Local Open Scope Z_scope.

(** X21: the time left shown on a card is never negative, its hours
    stay below 24, and days and hours together are the time left
    (0 once the end has passed) rounded down to the hour. *)
Theorem card_time_left (timeLeft : Z) :
  0 <= daysLeft timeLeft
  /\ 0 <= hoursLeft timeLeft <= 23
  /\ daysLeft timeLeft * MS_DAY + hoursLeft timeLeft * MS_HOUR
     <= Z.max 0 timeLeft
     < daysLeft timeLeft * MS_DAY + (hoursLeft timeLeft + 1) * MS_HOUR.
Proof.
  unfold daysLeft, hoursLeft, MS_DAY, MS_HOUR.
  change (1000 * 60 * 60 * 24) with 86400000.
  change (1000 * 60 * 60) with 3600000.
  destruct (Z.le_gt_cases 0 timeLeft) as [Hpos|Hneg].
  - rewrite Z.rem_mod_nonneg by lia.
    Z.div_mod_to_equations. lia.
  - pose proof (Z.rem_nonpos timeLeft 86400000) as Hrem.
    pose proof (Z.rem_bound_neg_pos timeLeft 86400000) as Hb.
    assert (Hq : timeLeft / 86400000 < 0)
      by (apply Z.div_lt_upper_bound; lia).
    assert (Hr : Z.rem timeLeft 86400000 / 3600000 <= 0)
      by (apply Z.div_le_upper_bound; lia).
    lia.
Qed.

Local Open Scope Q_scope.

Lemma number_nonneg (z : Z) : (0 <= z)%Z -> 0 <= number z.
Proof.
  intros Hz. unfold number. apply DoubleFacts.roundDouble_nonneg.
  change 0 with (inject_Z 0). rewrite <- Zle_Qle. exact Hz.
Qed.

(** Each of the two counts is at most their sum as the code computes
    it. *)
Lemma totalVotes_bounds (p : Proposal) :
  (0 <= votesFor p)%Z -> (0 <= votesAgainst p)%Z ->
  number (votesFor p) <= totalVotes p
  /\ number (votesAgainst p) <= totalVotes p.
Proof.
  intros Hf Ha.
  pose proof (number_nonneg _ Hf) as Hqf.
  pose proof (number_nonneg _ Ha) as Hqa.
  pose proof (DoubleFacts.roundDouble_idem (inject_Z (votesFor p))) as Df.
  pose proof (DoubleFacts.roundDouble_idem (inject_Z (votesAgainst p))) as Da.
  unfold totalVotes, Double.add. fold (number (votesFor p)) in Df.
  fold (number (votesAgainst p)) in Da. unfold Double.isDouble in Df, Da.
  split.
  - rewrite <- Df at 1. apply DoubleFacts.roundDouble_mono. lra.
  - rewrite <- Da at 1. apply DoubleFacts.roundDouble_mono. lra.
Qed.

(** X23: with no negative vote counts, each bar lies between 0 and 100
    per cent. *)
Theorem vote_bars_bounded (p : Proposal) :
  (0 <= votesFor p)%Z -> (0 <= votesAgainst p)%Z ->
  0 <= forPercentage p <= 100 /\ 0 <= againstPercentage p <= 100.
Proof.
  intros Hf Ha.
  pose proof (number_nonneg _ Hf) as Hqf.
  pose proof (number_nonneg _ Ha) as Hqa.
  destruct (totalVotes_bounds p Hf Ha) as [Bf Ba].
  unfold forPercentage, againstPercentage.
  destruct (Qltb 0 (totalVotes p)) eqn:Et; [|lra].
  apply Qltb_lt in Et.
  split; apply DoubleFacts.share_bounded; try exact Et; split; assumption.
Qed.

Lemma vote_bars_bounded_witness :
  0 <= forPercentage (mkProposal 15420000 3280000 1847 50) <= 100
  /\ 0 <= againstPercentage (mkProposal 15420000 3280000 1847 50) <= 100.
Proof.
  apply (vote_bars_bounded (mkProposal 15420000 3280000 1847 50)).
  - simpl. lia.
  - simpl. lia.
Defined.

(** One vote for and two against: the bars are 33.33333333333333 and
    66.66666666666666 per cent. *)
Example vote_bars_of_one_and_two :
  forPercentage (mkProposal 1 2 3 50) == 2345624805922133 # 70368744177664
  /\ againstPercentage (mkProposal 1 2 3 50)
     == 2345624805922133 # 35184372088832.
Proof. split; vm_compute; reflexivity. Qed.

End CardsFacts.

(** ** Stream hooks *)

Module StreamsFacts.
Import Streams.

Lemma tradesAfter_snoc (ms : list Message) (m : Message) :
  tradesAfter (ms ++ [m]) = onTradeMessage (tradesAfter ms) m.
Proof. unfold tradesAfter. rewrite fold_left_app. reflexivity. Qed.

(** X24: [useTradeStream] keeps the payloads of the 50 most recent
    [trade_executed] messages, newest first; other messages are
    ignored. *)
Theorem trades_are_latest_fifty (ms : list Message) :
  tradesAfter ms = firstn 50 (rev (map data (filter isTrade ms))).
Proof.
  induction ms as [|m ms IH] using rev_ind; [reflexivity|].
  rewrite tradesAfter_snoc, filter_app. unfold onTradeMessage.
  simpl filter. fold (isTrade m). destruct (isTrade m).
  - rewrite map_app, rev_app_distr. simpl rev. simpl app.
    rewrite IH. rewrite firstn_firstn. reflexivity.
  - rewrite app_nil_r. exact IH.
Qed.

Lemma notificationRun_snoc (es : list NotificationEvent)
      (e : NotificationEvent) :
  notificationRun (es ++ [e]) = notificationStep (notificationRun es) e.
Proof. unfold notificationRun. rewrite fold_left_app. reflexivity. Qed.

(** X25: [useNotifications] never holds more than 50 notifications and
    its unread count is never negative, whatever messages arrive and
    however often [acknowledge] and [clearAll] are called; every
    notification held is a message that counts (not [pong],
    [connected] or [ack_confirmed]). *)
Theorem notifications_bounded (es : list NotificationEvent) :
  (List.length (notifications (notificationRun es)) <= 50)%nat
  /\ (0 <= unreadCount (notificationRun es))%Z
  /\ Forall (fun m => counted m = true) (notifications (notificationRun es)).
Proof.
  induction es as [|e es IH] using rev_ind.
  - simpl. repeat split; [lia | lia | constructor].
  - rewrite notificationRun_snoc. destruct IH as (Hlen & Hun & Hall).
    destruct e as [m| |]; cbn [notificationStep].
    + destruct (counted m) eqn:Ec; [|auto].
      cbn [notifications unreadCount List.length].
      pose proof (firstn_le_length 49 (notifications (notificationRun es))).
      repeat split; [lia | lia |].
      constructor; [exact Ec|].
      rewrite <- (firstn_skipn 49 (notifications (notificationRun es)))
        in Hall.
      apply Forall_app in Hall. exact (proj1 Hall).
    + cbn [notifications unreadCount].
      repeat split; [exact Hlen | lia | exact Hall].
    + cbn [notifications unreadCount List.length].
      repeat split; [lia | lia | constructor].
Qed.




(** A [vote_cast] message whose data has no [vote] of ['for'] or
    ['against'] is listed and counted in neither tally. *)
Example other_vote_in_neither_tally :
  let g := governanceAfter [mkVoteMessage "vote_cast" (Some voteFor);
                            mkVoteMessage "vote_cast" (Some voteOther)] in
  votes g = [voteOther; voteFor] /\ countFor g = 1%Z /\ countAgainst g = 0%Z.
Proof. repeat split. Qed.

End StreamsFacts.

(** ** The auction hook *)

Module HooksFacts.
Import Js QubicSDK Hooks Scenario SDKFacts.

Local Open Scope Z_scope.

(** X27: when the contract call of a bid fails, the hook of the auction
    page ends with [isLoading] false and [error] set to the message of
    the failure, and throws it, although the transaction of
    [maxPrice * amount] has been sent. *)
Theorem hook_reports_failure_after_send (h : Host) (st : SDKState)
        (hk : AuctionHook) (w : QubicWallet) (auctionId err : string)
        (amount_ maxPrice : Z) :
  wallet st = Some w ->
  (forall p, fetchContractCall h p = inr err) ->
  exists tx st',
    hookPlaceBid h auctionId amount_ maxPrice hk st
    = (Throw err, mkAuctionHook (hookPrice hk) false (Some err), st')
    /\ emitted st' = emitted st ++ [transactionSent tx]
    /\ amount tx = maxPrice * amount_.
Proof.
  intros Hw Hfail. unfold hookPlaceBid.
  rewrite (placeBid_run h st w auctionId amount_ maxPrice Hw).
  rewrite Hfail. eexists. eexists. split; [reflexivity|].
  split; reflexivity.
Qed.

Lemma hook_reports_failure_after_send_witness :
  exists tx st',
    hookPlaceBid (mkHost "ab12" 7 1000 (fun _ => inr "Failed to fetch"%string))
                 "auction-1" 10 120 (mkAuctionHook None false None) demoSDK
    = (Throw "Failed to fetch",
       mkAuctionHook None false (Some "Failed to fetch"%string), st')
    /\ emitted st' = emitted demoSDK ++ [transactionSent tx]
    /\ amount tx = 120 * 10.
Proof.
  apply (hook_reports_failure_after_send
           (mkHost "ab12" 7 1000 (fun _ => inr "Failed to fetch"%string))
           demoSDK (mkAuctionHook None false None) demoWallet
           "auction-1" "Failed to fetch" 10 120).
  - reflexivity.
  - intros p. reflexivity.
Defined.

End HooksFacts.

